(** * django-migration-linter: [migration_checker.py]

    A shallow embedding of the migration checker and the properties its
    specification states about it.

    The script is Python 2 code: the lines read from a child process are
    byte strings ([str]), so [in], [startswith], [strip] and [re.search] all
    work on them directly.  A [str] is modelled as a [string] of 8-bit
    characters.

    Layout: Python string primitives; the fragment of [re] the three rules
    use; [os.path]; the process/print effects as a small monad over an event
    trace; the [MigrationChecker] methods and the main block; then the
    lemmas and the theorems of the specification. *)

From Stdlib Require Import ZArith Ascii DecimalString.
From stdpp Require Import base decidable option list sets gmap strings.

Local Open Scope Z_scope.

(* stdpp's solvers clear hypotheses that may already be gone. *)
#[local] Set Warnings "-clear-no-such-hyp".

(** ** Python [str] primitives *)

Module Str.

Definition newline : ascii := "010"%char.
Definition slash : ascii := "/"%char.
Definition dot : ascii := "."%char.
Definition star : ascii := "*"%char.

(** The characters [str.strip()] removes when called without argument. *)
Definition is_space (c : ascii) : bool :=
  match c with
  | "009" | "010" | "011" | "012" | "013" | " " => true
  | _ => false
  end%char.

Definition is_empty (s : string) : bool :=
  match s with "" => true | String _ _ => false end.

(** [len(s)] *)
Fixpoint len (s : string) : nat :=
  match s with "" => O | String _ s' => S (len s') end.

(** [s.startswith(p)] *)
Fixpoint startswith (p s : string) : bool :=
  match p, s with
  | "", _ => true
  | String _ _, "" => false
  | String c p', String d s' =>
      if decide (c = d) then startswith p' s' else false
  end.

(** [p in s]: the substring test, scanning the start positions from the
    left. *)
Fixpoint contains (p s : string) : bool :=
  startswith p s ||
  match s with "" => false | String _ s' => contains p s' end.

(** [s.lstrip()] *)
Fixpoint lstrip (s : string) : string :=
  match s with
  | "" => ""
  | String c s' => if is_space c then lstrip s' else s
  end.

(** [s.rstrip()] *)
Fixpoint rstrip (s : string) : string :=
  match s with
  | "" => ""
  | String c s' =>
      let r := rstrip s' in
      if is_space c && is_empty r then "" else String c r
  end.

(** [s.strip()] *)
Definition strip (s : string) : string := rstrip (lstrip s).

(** [s.rstrip(c)] for a single character [c] *)
Fixpoint rstrip_char (c : ascii) (s : string) : string :=
  match s with
  | "" => ""
  | String d s' =>
      let r := rstrip_char c s' in
      if decide (d = c) then (if is_empty r then "" else String d r)
      else String d r
  end.

(** [s.rfind(c)] for a single character [c]: the highest index holding
    [c], or [-1]. *)
Fixpoint rfind (c : ascii) (s : string) : Z :=
  match s with
  | "" => -1
  | String d s' =>
      let r := rfind c s' in
      if 0 <=? r then r + 1 else if decide (d = c) then 0 else -1
  end.

(** The slices [s[:n]] and [s[n:]] for [0 <= n]. *)
Fixpoint take (n : nat) (s : string) : string :=
  match n, s with
  | S n', String c s' => String c (take n' s')
  | _, _ => ""
  end.

Fixpoint drop (n : nat) (s : string) : string :=
  match n, s with
  | S n', String _ s' => drop n' s'
  | _, _ => s
  end.

(** [c * n]: the string of [n] copies of [c]. *)
Fixpoint replicate (n : nat) (c : ascii) : string :=
  match n with O => "" | S n' => String c (replicate n' c) end.

(** [c not in s] as a proposition, for a single character. *)
Fixpoint free_of (c : ascii) (s : string) : Prop :=
  match s with "" => True | String d s' => d ≠ c ∧ free_of c s' end.

(** [str(n)] for a non-negative integer. *)
Definition of_nat (n : nat) : string :=
  NilZero.string_of_uint (Nat.to_uint n).

End Str.

(** ** The fragment of [re] used by the rules

    The three rule patterns are built from literal characters, [.] and a
    postfix [*] only; [re_compile] reads exactly that fragment (every other
    character stands for itself, which is what [re] does for the letters and
    spaces these patterns contain).  No flag is passed, so [.] matches every
    character but a newline. *)

Module Re.

Inductive regex : Type :=
| Void : regex
| Eps : regex
| Chr : ascii → regex
| Dot : regex
| Seq : regex → regex → regex
| Alt : regex → regex → regex
| Star : regex → regex.

(** The language of a pattern. *)
Inductive matches : regex → string → Prop :=
| m_eps : matches Eps ""
| m_chr c : matches (Chr c) (String c "")
| m_dot c : c ≠ Str.newline → matches Dot (String c "")
| m_seq r1 r2 s1 s2 :
    matches r1 s1 → matches r2 s2 → matches (Seq r1 r2) (s1 +:+ s2)
| m_alt_l r1 r2 s : matches r1 s → matches (Alt r1 r2) s
| m_alt_r r1 r2 s : matches r2 s → matches (Alt r1 r2) s
| m_star_nil r : matches (Star r) ""
| m_star_cons r s1 s2 :
    matches r s1 → matches (Star r) s2 → matches (Star r) (s1 +:+ s2).

(** [re.compile(pattern)] on the fragment. *)
Fixpoint re_compile (pattern : string) : regex :=
  match pattern with
  | "" => Eps
  | String c rest =>
      let atom := if decide (c = Str.dot) then Dot else Chr c in
      match rest with
      | String q rest' =>
          if decide (q = Str.star) then Seq (Star atom) (re_compile rest')
          else Seq atom (re_compile rest)
      | "" => Seq atom (re_compile rest)
      end
  end.

(** Does the pattern accept the empty string? *)
Fixpoint nullable (r : regex) : bool :=
  match r with
  | Void | Chr _ | Dot => false
  | Eps | Star _ => true
  | Seq r1 r2 => nullable r1 && nullable r2
  | Alt r1 r2 => nullable r1 || nullable r2
  end.

(** The pattern left to match once [c] has been read. *)
Fixpoint deriv (c : ascii) (r : regex) : regex :=
  match r with
  | Void | Eps => Void
  | Chr d => if decide (d = c) then Eps else Void
  | Dot => if decide (c = Str.newline) then Void else Eps
  | Seq r1 r2 =>
      if nullable r1 then Alt (Seq (deriv c r1) r2) (deriv c r2)
      else Seq (deriv c r1) r2
  | Alt r1 r2 => Alt (deriv c r1) (deriv c r2)
  | Star r1 => Seq (deriv c r1) (Star r1)
  end.

(** [re.match(r, s)] as a truth value: some prefix of [s] is in the
    language of [r]. *)
Fixpoint re_match (r : regex) (s : string) : bool :=
  nullable r ||
  match s with "" => false | String c s' => re_match (deriv c r) s' end.

(** [re.search(r, s)] as a truth value ([None] is falsy, a match object
    is truthy): the pattern matches at some start position, tried from
    the left. *)
Fixpoint re_search (r : regex) (s : string) : bool :=
  re_match r s ||
  match s with "" => false | String _ s' => re_search r s' end.

(** What [re.search] decides, stated on the language of the pattern. *)
Definition occurs (r : regex) (s : string) : Prop :=
  ∃ a m b, s = a +:+ m +:+ b ∧ matches r m.

End Re.

(** ** [MigrationChecker.migration_tests] and the statement test *)

Record migration_test := {
  fn : string → bool;
  err_msg : string
}.

Definition NOT_NULL_PATTERN : string := "NOT NULL".
Definition DROP_COLUMN_PATTERN : string := "DROP COLUMN".
Definition ADD_COLUMN_DEFAULT_PATTERN : string := "ADD COLUMN .* DEFAULT".

Definition migration_tests : list migration_test :=
  [ {| fn := λ sql, Re.re_search (Re.re_compile NOT_NULL_PATTERN) sql;
       err_msg := "NOT NULL constraint on columns" |};
    {| fn := λ sql, Re.re_search (Re.re_compile DROP_COLUMN_PATTERN) sql;
       err_msg := "DROPPING columns" |};
    {| fn := λ sql, Re.re_search (Re.re_compile ADD_COLUMN_DEFAULT_PATTERN) sql;
       err_msg := "ADD columns with default" |} ].

(** The loop of [_test_sql_statement_for_backward_incompatibility] over a
    tuple of tests: the first test that fires returns. *)
Fixpoint test_loop (tests : list migration_test) (sql_statement : string)
  : bool * option string :=
  match tests with
  | [] => (true, None)
  | test :: tests' =>
      if fn test sql_statement then (false, Some (err_msg test))
      else test_loop tests' sql_statement
  end.

Definition _test_sql_statement_for_backward_incompatibility
  (sql_statement : string) : bool * option string :=
  test_loop migration_tests sql_statement.

(** ** [os.path] (the POSIX flavour: the script drives a POSIX shell) *)

Module Path.

(** [s.endswith('/')] *)
Fixpoint endswith_slash (s : string) : bool :=
  match s with
  | "" => false
  | String c "" => bool_decide (c = Str.slash)
  | String _ s' => endswith_slash s'
  end.

(** [os.path.join(a, b)] *)
Definition join (a b : string) : string :=
  if Str.startswith "/" b then b
  else if Str.is_empty a || endswith_slash a then a +:+ b
  else a +:+ "/" +:+ b.

(** [os.path.split(p)]: everything up to the last slash, and what follows
    it; the head loses its trailing slashes unless it is made of slashes
    only. *)
Definition split (p : string) : string * string :=
  let i := Z.to_nat (Str.rfind Str.slash p + 1) in
  let head := Str.take i p in
  let tail := Str.drop i p in
  let head :=
    if negb (Str.is_empty head) &&
       negb (bool_decide (head = Str.replicate (Str.len head) Str.slash))
    then Str.rstrip_char Str.slash head
    else head in
  (head, tail).

(** The loop of [genericpath._splitext] that skips the leading dots of the
    file name: is some character in [p[filenameIndex:dotIndex]] not a
    dot?  [count] is [dotIndex - filenameIndex]. *)
Fixpoint has_non_dot (count : nat) (s : string) : bool :=
  match count, s with
  | S count', String c s' =>
      if decide (c = Str.dot) then has_non_dot count' s' else true
  | _, _ => false
  end.

(** [os.path.splitext(p)] *)
Definition splitext (p : string) : string * string :=
  let sepIndex := Str.rfind Str.slash p in
  let dotIndex := Str.rfind Str.dot p in
  if (sepIndex <? dotIndex) &&
     has_non_dot (Z.to_nat (dotIndex - (sepIndex + 1)))
                 (Str.drop (Z.to_nat (sepIndex + 1)) p)
  then (Str.take (Z.to_nat dotIndex) p, Str.drop (Z.to_nat dotIndex) p)
  else (p, "").

End Path.

(** [split_path(path)].  The recursion is on the head that [os.path.split]
    returns; [depth] bounds the number of nested calls, and [None] stands
    for a recursion that exceeds it, which the interpreter reports as
    [RuntimeError: maximum recursion depth exceeded]. *)
Fixpoint split_path_rec (depth : nat) (path : string) : option (list string) :=
  match depth with
  | O => None
  | S depth' =>
      let '(a, b) := Path.split path in
      if (0 <? Str.len a)%nat
      then rest ← split_path_rec depth' a; Some (rest ++ [b])
      else Some ([] ++ [b])
  end.

(** A head is never longer than its path, so [len path + 1] nested calls are
    enough whenever the recursion ends at all (lemmas [split_path_rec_mono]
    and [split_path_absolute] below). *)
Definition split_path (path : string) : option (list string) :=
  split_path_rec (S (Str.len path)) path.

(** ** Effects: child processes, the file system, standard output *)

Inductive exn : Type :=
| Exception (msg : string)
| TypeError
| IndexError
| RuntimeError.

Inductive outcome (A : Type) : Type :=
| Return (a : A)
| Raise (e : exn).
Arguments Return {A} a.
Arguments Raise {A} e.

(** What a run does that the outside can see, in order. *)
Inductive event : Type :=
| Popen (cmd : string)
| Print (text : string).

(** A finished child process: [stdout.readlines()] and [returncode]. *)
Record process := {
  stdout : list string;
  returncode : Z
}.

(** What the script asks of its environment.  [set_iter] is the order in
    which iterating a set of strings yields its elements. *)
Record world := {
  popen : string → process;
  isdir : string → bool;
  isfile : string → bool;
  set_iter : gset string → list string
}.

(** Iterating a set yields each of its elements once. *)
Definition iter_ok (w : world) : Prop :=
  ∀ X : gset string, set_iter w X ≡ₚ elements X.

(** A computation: how it ends, and the events it emitted. *)
Definition M (A : Type) : Type := outcome A * list event.

#[global] Instance M_ret : MRet M := λ A a, (Return a, []).
#[global] Instance M_bind : MBind M := λ A B f m,
  match m with
  | (Return a, t1) => let '(o, t2) := f a in (o, t1 ++ t2)
  | (Raise e, t1) => (Raise e, t1)
  end.

Definition raise {A} (e : exn) : M A := (Raise e, []).
Definition lift {A} (o : outcome A) : M A := (o, []).
Definition emit (e : event) : M unit := (Return tt, [e]).

Definition nl : string := String Str.newline "".
Definition tab : string := String "009"%char "".

(** [print(s)] and [print(s, end='')] *)
Definition print (s : string) : M unit := emit (Print (s +:+ nl)).
Definition print_end (s e : string) : M unit := emit (Print (s +:+ e)).

(** [Popen(cmd, shell=True, ...)], read to the end and waited for. *)
Definition run (w : world) (cmd : string) : M process :=
  emit (Popen cmd);; mret (popen w cmd).


(** The texts written to standard output. *)
Definition printed (t : list event) : list string :=
  omap (λ e, match e with Print s => Some s | Popen _ => None end) t.

(** The commands run. *)
Definition commands (t : list event) : list string :=
  omap (λ e, match e with Popen c => Some c | Print _ => None end) t.

(** ** [MigrationChecker] *)

Definition MIGRATION_FOLDER_NAME : string := "migrations".

Record MigrationChecker := {
  location : string;
  commit_id : option string;
  changed_migration_files : list string
}.

(** ['{0}'.format(x)] for a value that is [None] or a string. *)
Definition format_opt (x : option string) : string :=
  match x with None => "None" | Some s => s end.

(** [not x] for a value that is [None] or a string. *)
Definition falsy (x : option string) : bool :=
  match x with None => true | Some s => Str.is_empty s end.

Definition git_init_cmd (location : string) : string :=
  "cd " +:+ location +:+ " && git rev-list HEAD | tail -n 1".

Definition git_diff_command (location : string) (commit : option string)
  : string :=
  "cd " +:+ location +:+ " && git diff --name-only " +:+ format_opt commit.

Definition sqlmigrate_command (location app_name migration_name : string)
  : string :=
  "cd " +:+ location +:+ " && python manage.py sqlmigrate " +:+ app_name
  +:+ " " +:+ migration_name.

(** [for line in lines: self.commit_id = line.strip(); break] *)
Definition first_line_commit (lines : list string) (commit : option string)
  : option string :=
  match lines with
  | [] => commit
  | line :: _ => Some (Str.strip line)
  end.

(** The loop over the diff output, appending to
    [self.changed_migration_files]. *)
Fixpoint gather_loop (lines : list string) (files : list string)
  : list string :=
  match lines with
  | [] => files
  | line :: lines' =>
      if Str.contains MIGRATION_FOLDER_NAME line
      then gather_loop lines' (files ++ [Str.strip line])
      else gather_loop lines' files
  end.

Definition _gather_migrations (w : world) (self : MigrationChecker)
  : M MigrationChecker :=
  commit ←
    (if falsy (commit_id self)
     then p ← run w (git_init_cmd (location self));
          mret (first_line_commit (stdout p) (commit_id self))
     else mret (commit_id self));
  diff_process ← run w (git_diff_command (location self) commit);
  let files :=
    gather_loop (stdout diff_process) (changed_migration_files self) in
  if decide (returncode diff_process ≠ 0)
  then raise (Exception "Error while executing git diff command")
  else mret {| location := location self;
               commit_id := commit;
               changed_migration_files := files |}.

(** [MigrationChecker(django_folder, commit_id)] *)
Definition MigrationChecker_init (w : world) (django_folder : string)
  (commit : option string) : M MigrationChecker :=
  _gather_migrations w {| location := django_folder;
                          commit_id := commit;
                          changed_migration_files := [] |}.

(** [l[i]] with Python's indexing: a negative index counts from the end,
    anything outside [-len(l) <= i < len(l)] is an [IndexError]. *)
Definition py_index {A} (l : list A) (i : Z) : outcome A :=
  let n := Z.of_nat (length l) in
  let j := if i <? 0 then i + n else i in
  if (0 <=? j) && (j <? n)
  then match l !! Z.to_nat j with Some x => Return x | None => Raise IndexError end
  else Raise IndexError.

(** The [for i, p in enumerate(decomposed_path)] loop; falling off its end
    returns [None]. *)
Fixpoint split_migration_loop (decomposed_path : list string) (i : Z)
  (rest : list string) : outcome (option (string * string)) :=
  match rest with
  | [] => Return None
  | p :: rest' =>
      if decide (p = MIGRATION_FOLDER_NAME)
      then match py_index decomposed_path (i - 1) with
           | Raise e => Raise e
           | Return app_name =>
               match py_index decomposed_path (i + 1) with
               | Raise e => Raise e
               | Return file_name =>
                   Return (Some (app_name, (Path.splitext file_name).1))
               end
           end
      else split_migration_loop decomposed_path (i + 1) rest'
  end.

Definition _split_migration_path (migration_path : string)
  : outcome (option (string * string)) :=
  match split_path migration_path with
  | None => Raise RuntimeError
  | Some decomposed_path =>
      split_migration_loop decomposed_path 0 decomposed_path
  end.

(** The loop over the renderer's output, appending to [sql_statements]. *)
Fixpoint sqlmigrate_loop (lines : list string) (sql_statements : list string)
  : list string :=
  match lines with
  | [] => sql_statements
  | line :: lines' =>
      if negb (Str.startswith "--" line)
      then sqlmigrate_loop lines' (sql_statements ++ [Str.strip line])
      else sqlmigrate_loop lines' sql_statements
  end.

Definition django_sqlmigrate (w : world) (self : MigrationChecker)
  (app_name migration_name : string) : M (list string) :=
  diff_process ←
    run w (sqlmigrate_command (location self) app_name migration_name);
  mret (sqlmigrate_loop (stdout diff_process) []).

(** The inner loop of [check_migrations], filling the set [errors].  The
    message is a string whenever [is_valid] is [False]. *)
Fixpoint errors_loop (sql_statements : list string) (errors : gset string)
  : gset string :=
  match sql_statements with
  | [] => errors
  | statement :: rest =>
      match _test_sql_statement_for_backward_incompatibility statement with
      | (false, Some msg) => errors_loop rest (errors ∪ {[ msg ]})
      | _ => errors_loop rest errors
      end
  end.

(** [for err in errors: print('\t' + err)] *)
Fixpoint print_errors (errs : list string) : M unit :=
  match errs with
  | [] => mret tt
  | err :: errs' => print (tab +:+ err);; print_errors errs'
  end.

(** [app_name, migration_name = x]: unpacking [None] is a [TypeError]. *)
Definition unpack (x : option (string * string)) : outcome (string * string) :=
  match x with Some p => Return p | None => Raise TypeError end.

(** One turn of the loop of [check_migrations]; [counts] is
    [(nb_valid, nb_erroneous)]. *)
Definition check_one (w : world) (self : MigrationChecker)
  (migration : string) (counts : nat * nat) : M (nat * nat) :=
  split ← lift (_split_migration_path migration);
  '(app_name, migration_name) ← lift (unpack split);
  sql_statements ← django_sqlmigrate w self app_name migration_name;
  print_end (migration +:+ "... ") "";;
  let errors := errors_loop sql_statements ∅ in
  if decide (errors = ∅)
  then print "OK";; mret (S counts.1, counts.2)
  else print "ERR";; print_errors (set_iter w errors);;
       mret (counts.1, S counts.2).

Fixpoint check_loop (w : world) (self : MigrationChecker)
  (migrations : list string) (counts : nat * nat) : M (nat * nat) :=
  match migrations with
  | [] => mret counts
  | migration :: rest =>
      counts' ← check_one w self migration counts;
      check_loop w self rest counts'
  end.

Definition summary_line (nb_valid total nb_erroneous : nat) : string :=
  "Valid migrations: " +:+ Str.of_nat nb_valid +:+ "/" +:+ Str.of_nat total
  +:+ " - erroneous migrations: " +:+ Str.of_nat nb_erroneous +:+ "/"
  +:+ Str.of_nat total.

(** [check_migrations]; the final counts are returned next to the trace so
    that they can be spoken about. *)
Definition check_migrations (w : world) (self : MigrationChecker)
  : M (nat * nat) :=
  counts ← check_loop w self (changed_migration_files self) (O, O);
  print "*** Summary:";;
  print (summary_line counts.1 (length (changed_migration_files self))
                      counts.2);;
  mret counts.

(** ** [valid_folder] and the main block *)

Definition valid_folder (w : world) (folder : string) : M bool :=
  if negb (isdir w folder)
  then print "The passed argument doesn't seem to be a folder.";;
       mret false
  else
    let django_manage_file := Path.join folder "manage.py" in
    if negb (isfile w django_manage_file)
    then print "The passed folder doesn't seem to be a django project (no manage.py found).";;
         mret false
    else
      let git_folder := Path.join folder ".git" in
      if negb (isdir w git_folder)
      then print "The passed folder doesn't seem to versioned by git (no .git/ folder found).";;
           mret false
      else mret true.

(** The [__main__] block, from the parsed arguments on ([folder_name] is
    [args.django_folder[0]], [commit] is [args.commit_id]). *)
Definition main (w : world) (folder_name : string) (commit : option string)
  : M (option (nat * nat)) :=
  ok ← valid_folder w folder_name;
  if ok : bool
  then checker ← MigrationChecker_init w folder_name commit;
       counts ← check_migrations w checker;
       mret (Some counts)
  else mret None.

(** ** Notions the properties are stated with *)

(** [p] is a substring of [s]. *)
Definition substring (p s : string) : Prop := ∃ a b, s = a +:+ p +:+ b.

(** The pattern that reads the characters of [p] literally, then [r]. *)
Fixpoint lit_then (p : string) (r : Re.regex) : Re.regex :=
  match p with
  | "" => r
  | String c p' => Re.Seq (Re.Chr c) (lit_then p' r)
  end.

(** The three rules, each as the pattern occurring in the statement. *)
Definition rule_not_null (sql : string) : Prop :=
  Re.occurs (Re.re_compile NOT_NULL_PATTERN) sql.
Definition rule_drop_column (sql : string) : Prop :=
  Re.occurs (Re.re_compile DROP_COLUMN_PATTERN) sql.
Definition rule_add_column_default (sql : string) : Prop :=
  Re.occurs (Re.re_compile ADD_COLUMN_DEFAULT_PATTERN) sql.

(** A statement that matches at least one of the three rules. *)
Definition unsafe (sql : string) : Prop :=
  rule_not_null sql ∨ rule_drop_column sql ∨ rule_add_column_default sql.

(** The commit the diff is taken against: the one passed, or the first
    line of the [rev-list] output when none was. *)
Definition effective_commit (w : world) (folder : string)
  (commit : option string) : option string :=
  if falsy commit
  then first_line_commit (stdout (popen w (git_init_cmd folder))) commit
  else commit.

(** The non-comment lines of the rendered SQL of a migration, stripped. *)
Definition rendered (w : world) (self : MigrationChecker)
  (app_name migration_name : string) : list string :=
  Str.strip <$>
    filter (λ line, Str.startswith "--" line = false)
      (stdout (popen w (sqlmigrate_command (location self) app_name
                                           migration_name))).

(** The set [errors] that [check_migrations] builds for a migration whose
    path was split into [app_name] and [migration_name]. *)
Definition migration_errors (w : world) (self : MigrationChecker)
  (app_name migration_name : string) : gset string :=
  errors_loop (sqlmigrate_loop
    (stdout (popen w (sqlmigrate_command (location self) app_name
                                         migration_name))) []) ∅.

(** A gathered path that [_split_migration_path] turns into a pair. *)
Definition splittable (migration : string) : Prop :=
  ∃ app_name migration_name,
    _split_migration_path migration = Return (Some (app_name, migration_name)).

(** A migration with an unsafe statement among its rendered ones. *)
Definition erroneous (w : world) (self : MigrationChecker)
  (migration : string) : Prop :=
  match _split_migration_path migration with
  | Return (Some (app_name, migration_name)) =>
      Exists unsafe (rendered w self app_name migration_name)
  | _ => False
  end.

(** The lines [print_errors] writes. *)
Definition message_lines (errs : list string) : list event :=
  (λ err, Print ((tab +:+ err) +:+ nl)) <$> errs.

(** The three messages. *)
Definition known_messages : list string :=
  err_msg <$> migration_tests.

(** What [_split_migration_path] returns when [decomposed_path[i]] is the
    first component equal to ['migrations']. *)
Definition returned_pair (decomposed_path : list string) (i : Z)
  : outcome (option (string * string)) :=
  match py_index decomposed_path (i - 1) with
  | Raise e => Raise e
  | Return app_name =>
      match py_index decomposed_path (i + 1) with
      | Raise e => Raise e
      | Return file_name =>
          Return (Some (app_name, (Path.splitext file_name).1))
      end
  end.

(** The index and value of the first component equal to ['migrations']. *)
Definition first_migrations (decomposed_path : list string)
  : option (nat * string) :=
  list_find (λ p, p = MIGRATION_FOLDER_NAME) decomposed_path.

(** A path with a component equal to ['migrations'] that is followed by
    another component. *)
Definition has_migrations_component (path : string) : Prop :=
  ∃ comps i file_name,
    split_path path = Some comps
    ∧ comps !! i = Some MIGRATION_FOLDER_NAME
    ∧ comps !! S i = Some file_name.

(** A path with an interior component equal to ['migrations']: one that
    has a component before it and one after it. *)
Definition has_interior_migrations (path : string) : Prop :=
  ∃ comps i app_name file_name,
    split_path path = Some comps
    ∧ comps !! i = Some app_name
    ∧ comps !! S i = Some MIGRATION_FOLDER_NAME
    ∧ comps !! S (S i) = Some file_name.

(** ** Sample runs

    A project [proj] with two changed migrations: [app/0001_initial], whose
    rendered SQL mentions [NOT NULL] in a comment only, and
    [blog/0002_add], which has unsafe statements of all three kinds.  The
    diff output and its return code are left open. *)

Definition line (s : string) : string := s +:+ nl.

Definition demo_popen (diff_lines : list string) (rc : Z) (cmd : string)
  : process :=
  if decide (cmd = git_init_cmd "proj")
  then {| stdout := [line "abc123"]; returncode := 0 |}
  else if decide (cmd = git_diff_command "proj" (Some "abc123"))
  then {| stdout := diff_lines; returncode := rc |}
  else if decide (cmd = sqlmigrate_command "proj" "app" "0001_initial")
  then {| stdout := [line "BEGIN;";
                     line "--";
                     line "-- Create model Author NOT NULL";
                     line "CREATE INDEX idx ON t (c);";
                     line "COMMIT;"];
          returncode := 0 |}
  else if decide (cmd = sqlmigrate_command "proj" "blog" "0002_add")
  then {| stdout := [line "ALTER TABLE t ADD COLUMN x INT DEFAULT 0;";
                     line "ALTER TABLE t ADD COLUMN y INT NOT NULL;";
                     line "ALTER TABLE u ADD COLUMN z INT NOT NULL;";
                     line "ALTER TABLE t DROP COLUMN w;"];
          returncode := 0 |}
  else {| stdout := []; returncode := 1 |}.

Definition demo_world (diff_lines : list string) (rc : Z) : world :=
  {| popen := demo_popen diff_lines rc;
     isdir := λ f, bool_decide (f ∈ ["proj"; "proj/.git"]);
     isfile := λ f, bool_decide (f = "proj/manage.py");
     set_iter := elements |}.

(** The same environment, with sets iterated in the opposite order. *)
Definition demo_world_reversed (diff_lines : list string) (rc : Z) : world :=
  {| popen := demo_popen diff_lines rc;
     isdir := λ f, bool_decide (f ∈ ["proj"; "proj/.git"]);
     isfile := λ f, bool_decide (f = "proj/manage.py");
     set_iter := λ X, reverse (elements X) |}.

Definition demo_diff : list string :=
  [line "app/migrations/0001_initial.py";
   line "app/models.py";
   line "blog/migrations/0002_add.py"].

Definition demo_checker (files : list string) : MigrationChecker :=
  {| location := "proj";
     commit_id := Some "abc123";
     changed_migration_files := files |}.

(** * Lemmas *)

(** ** Strings *)

Section str_facts.
Implicit Types (s t u p : string) (c d : ascii).

Lemma sapp_nil_l s : "" +:+ s = s.
Proof. reflexivity. Qed.

Lemma sapp_cons c s t : String c s +:+ t = String c (s +:+ t).
Proof. reflexivity. Qed.

Lemma sapp_nil_r s : s +:+ "" = s.
Proof. induction s as [|c s IH]; [done|]. by rewrite sapp_cons, IH. Qed.

Lemma sapp_assoc s t u : s +:+ t +:+ u = (s +:+ t) +:+ u.
Proof. induction s as [|c s IH]; [done|]. by rewrite !sapp_cons, IH. Qed.

Lemma sapp_eq_nil s t : s +:+ t = "" → s = "" ∧ t = "".
Proof. destruct s; [done|]. by rewrite sapp_cons. Qed.

Lemma sapp_eq_cons s t c u :
  s +:+ t = String c u →
  (s = "" ∧ t = String c u) ∨ (∃ s', s = String c s' ∧ u = s' +:+ t).
Proof.
  destruct s as [|d s]; [by left|].
  rewrite sapp_cons. intros [= -> <-]. right. by exists s.
Qed.

Lemma len_app s t : Str.len (s +:+ t) = (Str.len s + Str.len t)%nat.
Proof. induction s as [|c s IH]; [done|]. rewrite sapp_cons. simpl. by rewrite IH. Qed.

Lemma sapp_inj_r s t u : s +:+ u = t +:+ u → s = t.
Proof.
  revert t. induction s as [|c s IH]; intros [|d t] H.
  - done.
  - apply (f_equal Str.len) in H. rewrite sapp_nil_l, sapp_cons in H.
    cbn [Str.len] in H. rewrite len_app in H. lia.
  - apply (f_equal Str.len) in H. rewrite sapp_nil_l, sapp_cons in H.
    cbn [Str.len] in H. rewrite len_app in H. lia.
  - rewrite !sapp_cons in H. injection H as -> H. f_equal. auto.
Qed.

Lemma is_empty_true s : Str.is_empty s = true ↔ s = "".
Proof. by destruct s. Qed.

Lemma startswith_spec p s : Str.startswith p s = true ↔ ∃ t, s = p +:+ t.
Proof.
  revert s. induction p as [|c p IH]; intros s.
  - simpl. split; [by exists s|done].
  - destruct s as [|d s]; simpl.
    + split; [done|]. by intros [t ?].
    + case_decide as Hcd.
      * subst d. rewrite IH. split.
        -- intros [t ->]. by exists t.
        -- intros [t Ht]. rewrite sapp_cons in Ht. injection Ht as ->. by exists t.
      * split; [done|]. intros [t Ht]. rewrite sapp_cons in Ht. congruence.
Qed.

(** [p in s] holds exactly when [p] is a substring of [s]. *)
Lemma contains_spec p s :
  Str.contains p s = true ↔ ∃ a b, s = a +:+ p +:+ b.
Proof.
  induction s as [|c s IH].
  - simpl. rewrite orb_false_r, startswith_spec. split.
    + intros [t ->]. by exists "", t.
    + intros (a & b & H). symmetry in H.
      apply sapp_eq_nil in H as [-> H].
      apply sapp_eq_nil in H as [-> ->]. by exists "".
  - simpl. rewrite orb_true_iff, IH, startswith_spec. split.
    + intros [[t ->]|(a & b & ->)].
      * by exists "", t.
      * by exists (String c a), b.
    + intros (a & b & H). destruct a as [|d a].
      * left. by exists b.
      * rewrite sapp_cons in H. injection H as -> ->. right. by exists a, b.
Qed.

Lemma lstrip_suffix s : ∃ a, s = a +:+ Str.lstrip s.
Proof.
  induction s as [|c s [a IH]]; [by exists ""|]. simpl.
  destruct (Str.is_space c).
  - exists (String c a). by rewrite sapp_cons, <-IH.
  - by exists "".
Qed.

Lemma rstrip_prefix s : ∃ b, s = Str.rstrip s +:+ b.
Proof.
  induction s as [|c s [b IH]]; [by exists ""|]. simpl.
  destruct (Str.is_space c && Str.is_empty (Str.rstrip s)).
  - by exists (String c s).
  - exists b. by rewrite sapp_cons, <-IH.
Qed.

(** [s.strip()] is a substring of [s]. *)
Lemma strip_substring s : ∃ a b, s = a +:+ Str.strip s +:+ b.
Proof.
  destruct (lstrip_suffix s) as [a Ha].
  destruct (rstrip_prefix (Str.lstrip s)) as [b Hb].
  exists a, b. unfold Str.strip. by rewrite <-Hb.
Qed.

End str_facts.

(** ** The matcher decides the language of the pattern *)

Section re_facts.
Import Re.
Implicit Types (r : regex) (s m : string) (c : ascii).

Lemma nullable_matches r : nullable r = true → matches r "".
Proof.
  induction r; simpl; try done.
  - intros _. constructor.
  - intros [??]%andb_true_iff. change "" with ("" +:+ ""). constructor; auto.
  - intros [?|?]%orb_true_iff; [apply m_alt_l|apply m_alt_r]; auto.
  - intros _. constructor.
Qed.

Lemma matches_nullable r s : matches r s → s = "" → nullable r = true.
Proof.
  induction 1 as [| | |r1 r2 s1 s2 _ IH1 _ IH2| | | |]; simpl; try done.
  - intros [-> ->]%sapp_eq_nil. by rewrite IH1, IH2.
  - intros. rewrite orb_true_iff. auto.
  - intros. rewrite orb_true_iff. auto.
Qed.

Lemma nullable_spec r : nullable r = true ↔ matches r "".
Proof. split; [apply nullable_matches|]. intros. by eapply matches_nullable. Qed.

Lemma deriv_sound c r s : matches (deriv c r) s → matches r (String c s).
Proof.
  revert s. induction r as [| |d| |r1 IH1 r2 IH2|r1 IH1 r2 IH2|r1 IH1];
    intros s; simpl.
  - inversion 1.
  - inversion 1.
  - case_decide; inversion 1; subst. constructor.
  - case_decide; inversion 1; subst. by constructor.
  - destruct (nullable r1) eqn:Hn.
    + inversion 1 as [| | | |? ? ? H'|? ? ? H'| |]; subst.
      * inversion H'; subst. rewrite <-sapp_cons. constructor; auto.
      * rewrite <-(sapp_nil_l (String c s)). constructor; [|auto].
        by apply nullable_matches.
    + inversion 1; subst. rewrite <-sapp_cons. constructor; auto.
  - inversion 1; subst; [apply m_alt_l|apply m_alt_r]; auto.
  - inversion 1; subst. rewrite <-sapp_cons. constructor; auto.
Qed.

Lemma deriv_complete c r s0 :
  matches r s0 → ∀ s, s0 = String c s → matches (deriv c r) s.
Proof.
  induction 1 as [|d|d Hd|r1 r2 s1 s2 H1 IH1 H2 IH2|r1 r2 s0 H IH
                  |r1 r2 s0 H IH|r1|r1 s1 s2 H1 IH1 H2 IH2]; intros s Hs; simpl.
  - done.
  - injection Hs as -> <-. rewrite decide_True by done. constructor.
  - injection Hs as -> <-. rewrite decide_False by done. constructor.
  - apply sapp_eq_cons in Hs as [[-> ->]|(s1' & -> & ->)].
    + rewrite (matches_nullable _ _ H1 eq_refl). apply m_alt_r. auto.
    + destruct (nullable r1); [apply m_alt_l|]; constructor; auto.
  - apply m_alt_l. auto.
  - apply m_alt_r. auto.
  - done.
  - apply sapp_eq_cons in Hs as [[-> ->]|(s1' & -> & ->)].
    + by apply IH2.
    + constructor; auto.
Qed.

Lemma deriv_spec c r s : matches (deriv c r) s ↔ matches r (String c s).
Proof. split; [apply deriv_sound|]. intros. by eapply deriv_complete. Qed.

(** [re_match] holds exactly when a prefix is in the language. *)
Lemma re_match_spec r s :
  re_match r s = true ↔ ∃ m b, s = m +:+ b ∧ matches r m.
Proof.
  revert r. induction s as [|c s IH]; intros r; simpl.
  - rewrite orb_false_r, nullable_spec. split.
    + intros. by exists "", "".
    + intros (m & b & [-> ->]%eq_sym%sapp_eq_nil & ?). done.
  - rewrite orb_true_iff, nullable_spec, IH. split.
    + intros [?|(m & b & -> & ?%deriv_spec)].
      * by exists "", (String c s).
      * by exists (String c m), b.
    + intros (m & b & Hs & Hm). symmetry in Hs.
      apply sapp_eq_cons in Hs as [[-> ->]|(m' & -> & ->)]; [by left|].
      right. exists m', b. by rewrite deriv_spec.
Qed.

(** [re_search] holds exactly when the pattern occurs in the string. *)
Lemma re_search_spec r s : re_search r s = true ↔ occurs r s.
Proof.
  unfold occurs. induction s as [|c s IH]; cbn [re_search].
  - rewrite orb_false_r, re_match_spec. split.
    + intros (m & b & -> & ?). by exists "", m, b.
    + intros (a & m & b & [-> ?]%eq_sym%sapp_eq_nil & ?). by exists m, b.
  - rewrite orb_true_iff, IH, re_match_spec. split.
    + intros [(m & b & -> & ?)|(a & m & b & -> & ?)].
      * by exists "", m, b.
      * by exists (String c a), m, b.
    + intros (a & m & b & Hs & Hm). destruct a as [|d a].
      * left. by exists m, b.
      * rewrite sapp_cons in Hs. injection Hs as -> ->. right. by exists a, m, b.
Qed.

(** A pattern that occurs in a substring occurs in the whole string. *)
Lemma occurs_app r a s b : occurs r s → occurs r (a +:+ s +:+ b).
Proof.
  intros (a' & m & b' & -> & Hm). exists (a +:+ a'), m, (b' +:+ b).
  split; [|done]. by rewrite <-!sapp_assoc.
Qed.

End re_facts.

(** ** The languages of the three rule patterns *)

Section rule_facts.
Import Re.
Implicit Types (r : regex) (s m p : string) (c : ascii).

Lemma matches_eps m : matches Eps m ↔ m = "".
Proof. split; [by inversion 1|intros ->; constructor]. Qed.

Lemma matches_seq r1 r2 m :
  matches (Seq r1 r2) m ↔ ∃ m1 m2, m = m1 +:+ m2 ∧ matches r1 m1 ∧ matches r2 m2.
Proof.
  split.
  - inversion 1; subst. eauto.
  - intros (m1 & m2 & -> & ? & ?). by constructor.
Qed.

Lemma matches_chr c m : matches (Chr c) m ↔ m = String c "".
Proof. split; [by inversion 1|intros ->; constructor]. Qed.

Lemma matches_lit_then p r m :
  matches (lit_then p r) m ↔ ∃ m', m = p +:+ m' ∧ matches r m'.
Proof.
  revert m. induction p as [|c p IH]; intros m; simpl.
  - split; [by exists m|]. by intros (m' & -> & ?).
  - rewrite matches_seq. split.
    + intros (m1 & m2 & -> & ->%matches_chr & (m' & -> & ?)%IH). by exists m'.
    + intros (m' & -> & ?). exists (String c ""), (p +:+ m').
      split; [done|]. split; [constructor|]. apply IH. by exists m'.
Qed.

(** [.*] matches the strings that hold no newline. *)
Lemma matches_star_dot m : matches (Star Dot) m ↔ Str.free_of Str.newline m.
Proof.
  split.
  - remember (Star Dot) as r eqn:Hr. induction 1 as [| | | | | | |r1 s1 s2 H1 _ _ IH2];
      try discriminate; [done|].
    injection Hr as ->. inversion H1; subst. rewrite sapp_cons. simpl. auto.
  - induction m as [|c m IH]; simpl; [constructor|].
    intros [? ?]. change (String c m) with (String c "" +:+ m).
    constructor; [by constructor|auto].
Qed.

Lemma occurs_lit p s : occurs (lit_then p Eps) s ↔ substring p s.
Proof.
  unfold occurs, substring. split.
  - intros (a & m & b & -> & (m' & -> & ->%matches_eps)%matches_lit_then).
    exists a, b. by rewrite sapp_nil_r.
  - intros (a & b & ->). exists a, p, b. split; [done|].
    apply matches_lit_then. exists "". by rewrite sapp_nil_r, matches_eps.
Qed.

Lemma rule_not_null_spec s : rule_not_null s ↔ substring "NOT NULL" s.
Proof. apply (occurs_lit "NOT NULL"). Qed.

Lemma rule_drop_column_spec s : rule_drop_column s ↔ substring "DROP COLUMN" s.
Proof. apply (occurs_lit "DROP COLUMN"). Qed.

Lemma rule_add_column_default_spec s :
  rule_add_column_default s ↔
  ∃ a mid b, s = a +:+ "ADD COLUMN " +:+ mid +:+ " DEFAULT" +:+ b
             ∧ Str.free_of Str.newline mid.
Proof.
  unfold rule_add_column_default, occurs.
  change (re_compile ADD_COLUMN_DEFAULT_PATTERN)
    with (lit_then "ADD COLUMN " (Seq (Star Dot) (lit_then " DEFAULT" Eps))).
  split.
  - intros (a & m & b & -> & (m' & -> & Hm)%matches_lit_then).
    apply matches_seq in Hm as (mid & m2 & -> & Hmid%matches_star_dot & Hm2).
    apply matches_lit_then in Hm2 as (e & -> & ->%matches_eps).
    exists a, mid, b. split; [|done].
    by rewrite sapp_nil_r, <-!sapp_assoc.
  - intros (a & mid & b & -> & Hmid).
    exists a, ("ADD COLUMN " +:+ mid +:+ " DEFAULT"), b. split.
    + by rewrite <-!sapp_assoc.
    + apply matches_lit_then. exists (mid +:+ " DEFAULT"). split; [done|].
      apply matches_seq. exists mid, " DEFAULT".
      split; [done|]. split; [by apply matches_star_dot|].
      apply matches_lit_then. exists "". by rewrite matches_eps.
Qed.

End rule_facts.

(** ** The statement test *)

Lemma test_first_rule sql :
  _test_sql_statement_for_backward_incompatibility sql =
  if Re.re_search (Re.re_compile NOT_NULL_PATTERN) sql
  then (false, Some "NOT NULL constraint on columns")
  else if Re.re_search (Re.re_compile DROP_COLUMN_PATTERN) sql
  then (false, Some "DROPPING columns")
  else if Re.re_search (Re.re_compile ADD_COLUMN_DEFAULT_PATTERN) sql
  then (false, Some "ADD columns with default")
  else (true, None).
Proof. reflexivity. Qed.

Lemma test_invalid_iff sql :
  (_test_sql_statement_for_backward_incompatibility sql).1 = false ↔ unsafe sql.
Proof.
  unfold unsafe, rule_not_null, rule_drop_column, rule_add_column_default.
  rewrite <-!re_search_spec, test_first_rule.
  destruct (Re.re_search (Re.re_compile NOT_NULL_PATTERN) sql),
    (Re.re_search (Re.re_compile DROP_COLUMN_PATTERN) sql),
    (Re.re_search (Re.re_compile ADD_COLUMN_DEFAULT_PATTERN) sql);
    simpl; intuition congruence.
Qed.

#[global] Instance unsafe_dec sql : Decision (unsafe sql).
Proof.
  refine (cast_if (decide
    ((_test_sql_statement_for_backward_incompatibility sql).1 = false)));
    abstract (by rewrite <-test_invalid_iff).
Defined.

#[global] Instance substring_dec p s : Decision (substring p s).
Proof.
  refine (cast_if (decide (Str.contains p s = true)));
    abstract (unfold substring; by rewrite <-contains_spec).
Defined.

(** ** Traces of computations *)

Section monad_facts.
Context {A B : Type}.
Implicit Types (m : M A) (f : A → M B).

Lemma bind_Return a t f : ((Return a, t) ≫= f) = ((f a).1, t ++ (f a).2).
Proof. unfold mbind, M_bind. by destruct (f a). Qed.

Lemma bind_Raise e t f : ((Raise e, t) ≫= f) = (Raise e, t).
Proof. reflexivity. Qed.

Lemma bind_mret a f : (mret a ≫= f) = f a.
Proof. unfold mret, M_ret. rewrite bind_Return. by destruct (f a). Qed.

Lemma bind_raise e f : (raise e ≫= f) = raise e.
Proof. reflexivity. Qed.

End monad_facts.

Lemma bind_emit {B} ev (k : M B) : (emit ev ;; k) = (k.1, ev :: k.2).
Proof. unfold emit. by rewrite bind_Return. Qed.


Lemma print_errors_trace errs :
  print_errors errs = (Return tt, message_lines errs).
Proof.
  induction errs as [|err errs IH]; [done|]. cbn [print_errors].
  unfold print. by rewrite bind_emit, IH.
Qed.

Lemma printed_app t1 t2 : printed (t1 ++ t2) = printed t1 ++ printed t2.
Proof. unfold printed. apply omap_app. Qed.

Lemma commands_app t1 t2 : commands (t1 ++ t2) = commands t1 ++ commands t2.
Proof. unfold commands. apply omap_app. Qed.




Lemma commands_message_lines errs : commands (message_lines errs) = [].
Proof. by induction errs. Qed.

(** ** The loops *)

Lemma gather_loop_spec lines files :
  gather_loop lines files =
  files ++ (Str.strip <$> filter (substring MIGRATION_FOLDER_NAME) lines).
Proof.
  revert files. induction lines as [|line lines IH]; intros files; simpl.
  - by rewrite List.app_nil_r.
  - rewrite filter_cons.
    destruct (Str.contains MIGRATION_FOLDER_NAME line) eqn:Hc.
    + rewrite decide_True by (by apply contains_spec).
      rewrite IH, fmap_cons. by rewrite <-List.app_assoc.
    + rewrite decide_False; [apply IH|].
      intros ?%contains_spec. congruence.
Qed.

Lemma sqlmigrate_loop_spec lines sql_statements :
  sqlmigrate_loop lines sql_statements =
  sql_statements ++
    (Str.strip <$> filter (λ line, Str.startswith "--" line = false) lines).
Proof.
  revert sql_statements.
  induction lines as [|line lines IH]; intros acc; cbn [sqlmigrate_loop].
  - by rewrite List.app_nil_r.
  - rewrite filter_cons. destruct (Str.startswith "--" line) eqn:Hc;
      cbn [negb].
    + rewrite decide_False by done. apply IH.
    + rewrite decide_True by done. rewrite IH, fmap_cons.
      by rewrite <-List.app_assoc.
Qed.

Lemma test_result_shape sql :
  (∃ msg, _test_sql_statement_for_backward_incompatibility sql
          = (false, Some msg) ∧ msg ∈ known_messages ∧ unsafe sql)
  ∨ (_test_sql_statement_for_backward_incompatibility sql = (true, None)
     ∧ ¬ unsafe sql).
Proof.
  destruct (_test_sql_statement_for_backward_incompatibility sql)
    as [b o] eqn:Ht.
  pose proof (test_invalid_iff sql) as Hi. rewrite Ht in Hi. simpl in Hi.
  rewrite test_first_rule in Ht. unfold known_messages. simpl.
  repeat match type of Ht with
         | (if ?c then _ else _) = _ => destruct c
         end; injection Ht as <- <-.
  - left. eexists. split; [done|]. split; [by repeat constructor|]. by apply Hi.
  - left. eexists. split; [done|]. split; [by repeat constructor|]. by apply Hi.
  - left. eexists. split; [done|]. split; [by repeat constructor|]. by apply Hi.
  - right. split; [done|]. intros ?%Hi. done.
Qed.

Lemma errors_loop_elem stmts (X : gset string) msg :
  msg ∈ errors_loop stmts X ↔
  msg ∈ X ∨ ∃ sql, sql ∈ stmts ∧
    _test_sql_statement_for_backward_incompatibility sql = (false, Some msg).
Proof.
  revert X. induction stmts as [|sql stmts IH]; intros X; simpl.
  - split; [auto|]. intros [?|(? & ?%elem_of_nil & _)]; done.
  - destruct (test_result_shape sql) as [(m & Ht & _)|[Ht _]]; rewrite Ht.
    + rewrite IH, elem_of_union, elem_of_singleton. split.
      * intros [[?| ->]|(s & ? & ?)]; [by left| |].
        -- right. exists sql. split; [left|done].
        -- right. exists s. split; [by right|done].
      * intros [?|(s & [->|?]%elem_of_cons & Hs)]; [by left;left| |].
        -- rewrite Ht in Hs. injection Hs as ->. left. by right.
        -- right. by exists s.
    + rewrite IH. split.
      * intros [?|(s & ? & ?)]; [by left|]. right. exists s. split; [by right|done].
      * intros [?|(s & [->|?]%elem_of_cons & Hs)]; [by left| |].
        -- rewrite Ht in Hs. done.
        -- right. by exists s.
Qed.

(** The set is empty exactly when no statement is unsafe. *)
Lemma errors_loop_empty stmts :
  errors_loop stmts ∅ = ∅ ↔ Forall (λ sql, ¬ unsafe sql) stmts.
Proof.
  rewrite Forall_forall. split.
  - intros He sql Hin Hu.
    destruct (test_result_shape sql) as [(m & Ht & _)|[_ ?]]; [|done].
    assert (m ∈ errors_loop stmts ∅) as Hm.
    { apply errors_loop_elem. right. by exists sql. }
    rewrite He in Hm. set_solver.
  - intros Hall. apply set_eq. intros m. rewrite errors_loop_elem. split.
    + intros [?|(sql & Hin & Ht)]; [done|].
      destruct (test_result_shape sql) as [(? & _ & _ & Hu)|[Ht' _]].
      * by destruct (Hall sql Hin).
      * congruence.
    + set_solver.
Qed.

Lemma errors_loop_known stmts msg :
  msg ∈ errors_loop stmts ∅ → msg ∈ known_messages.
Proof.
  intros [?|(sql & _ & Ht)]%errors_loop_elem; [set_solver|].
  destruct (test_result_shape sql) as [(m & Ht' & ? & _)|[Ht' _]]; congruence.
Qed.

(** ** One turn of the loop of [check_migrations] *)

Lemma check_one_raise w self migration counts e :
  _split_migration_path migration = Raise e →
  check_one w self migration counts = (Raise e, []).
Proof. intros H. unfold check_one. by rewrite H. Qed.

Lemma check_one_none w self migration counts :
  _split_migration_path migration = Return None →
  check_one w self migration counts = (Raise TypeError, []).
Proof. intros H. unfold check_one. by rewrite H. Qed.

Lemma check_one_some w self migration counts app_name migration_name :
  _split_migration_path migration = Return (Some (app_name, migration_name)) →
  check_one w self migration counts =
  let errors := migration_errors w self app_name migration_name in
  let head :=
    [Popen (sqlmigrate_command (location self) app_name migration_name);
     Print ((migration +:+ "... ") +:+ "")] in
  if decide (errors = ∅)
  then (Return (S counts.1, counts.2), head ++ [Print ("OK" +:+ nl)])
  else (Return (counts.1, S counts.2),
        head ++ Print ("ERR" +:+ nl) :: message_lines (set_iter w errors)).
Proof.
  intros H. unfold check_one. rewrite H.
  cbv beta iota zeta delta [mbind M_bind mret M_ret lift unpack run emit
    print print_end django_sqlmigrate fst snd].
  fold (migration_errors w self app_name migration_name).
  destruct (decide (migration_errors w self app_name migration_name = ∅)).
  - reflexivity.
  - rewrite print_errors_trace. cbn [app]. by rewrite List.app_nil_r.
Qed.

(** ** [os.path.split] and [split_path] *)

Section path_facts.
Implicit Types (s t p pre post : string) (c d : ascii).

Lemma rfind_cases c s :
  (Str.rfind c s = -1 ∧ Str.free_of c s) ∨
  (∃ pre post, s = pre +:+ String c post
               ∧ Str.rfind c s = Z.of_nat (Str.len pre)
               ∧ Str.free_of c post).
Proof.
  induction s as [|d s IH]; [by left|]. cbn [Str.rfind].
  destruct IH as [[-> Hfree]|(pre & post & -> & -> & Hfree)].
  - cbn. case_decide as Hd.
    + subst d. right. by exists "", s.
    + left. by split.
  - right. exists (String d pre), post. split; [done|]. split; [|done].
    rewrite (proj2 (Z.leb_le _ _)) by lia. cbn [Str.len]. lia.
Qed.

Lemma take_app pre t n :
  Str.take (Str.len pre + n) (pre +:+ t) = pre +:+ Str.take n t.
Proof.
  induction pre as [|c pre IH]; [done|].
  rewrite sapp_cons. cbn [Str.len Nat.add Str.take]. by rewrite IH.
Qed.

Lemma drop_app pre t n : Str.drop (Str.len pre + n) (pre +:+ t) = Str.drop n t.
Proof.
  induction pre as [|c pre IH]; [done|].
  rewrite sapp_cons. cbn [Str.len Nat.add Str.drop]. by rewrite IH.
Qed.

Lemma rstrip_char_len c s : (Str.len (Str.rstrip_char c s) ≤ Str.len s)%nat.
Proof.
  induction s as [|d s IH]; [done|]. cbn [Str.rstrip_char].
  case_decide; [destruct (Str.is_empty _)|]; cbn [Str.len]; lia.
Qed.

(** Stripping a trailing [c] removes at least that character. *)
Lemma rstrip_char_snoc c s :
  Str.rstrip_char c (s +:+ String c "") = Str.rstrip_char c s.
Proof.
  induction s as [|d s IH].
  - rewrite sapp_nil_l. cbn [Str.rstrip_char Str.is_empty].
    by rewrite decide_True.
  - rewrite sapp_cons. cbn [Str.rstrip_char]. by rewrite IH.
Qed.

Lemma rstrip_char_empty c s :
  Str.rstrip_char c s = "" ↔ s = Str.replicate (Str.len s) c.
Proof.
  induction s as [|d s IH]; [done|]. cbn [Str.rstrip_char Str.len Str.replicate].
  case_decide as Hd.
  - subst d. destruct (Str.is_empty (Str.rstrip_char c s)) eqn:He.
    + apply is_empty_true in He. split; [|done]. intros _. f_equal. by apply IH.
    + split; [done|]. intros [= Hs]. apply IH in Hs. by rewrite Hs in He.
  - split; [done|]. by intros [= ? _].
Qed.

Lemma split_no_slash p : Str.free_of Str.slash p → Path.split p = ("", p).
Proof.
  intros Hfree. unfold Path.split.
  destruct (rfind_cases Str.slash p) as [[-> _]|(pre & post & Hp & _ & _)].
  - done.
  - exfalso. rewrite Hp in Hfree. clear Hp.
    induction pre as [|c pre IH]; [by destruct Hfree|].
    rewrite sapp_cons in Hfree. destruct Hfree. auto.
Qed.

Lemma split_slash pre post :
  Str.free_of Str.slash post →
  Path.split (pre +:+ String Str.slash post) =
  (if bool_decide (pre +:+ "/" = Str.replicate (S (Str.len pre)) Str.slash)
   then pre +:+ "/" else Str.rstrip_char Str.slash pre, post).
Proof.
  intros Hfree. unfold Path.split.
  assert (Str.rfind Str.slash (pre +:+ String Str.slash post)
          = Z.of_nat (Str.len pre)) as ->.
  { destruct (rfind_cases Str.slash (pre +:+ String Str.slash post))
      as [[_ Hf]|(pre' & post' & Hp & -> & Hf)].
    - exfalso. clear -Hf. induction pre as [|c pre IH]; [by destruct Hf|].
      rewrite sapp_cons in Hf. destruct Hf. auto.
    - f_equal. f_equal. clear -Hp Hf Hfree. revert pre' Hp.
      induction pre as [|c pre IH]; intros pre' Hp.
      + destruct pre' as [|c' pre']; [done|]. exfalso.
        rewrite sapp_nil_l, sapp_cons in Hp. injection Hp as <- ->.
        clear -Hfree. induction pre' as [|c pre IH]; [by destruct Hfree|].
        rewrite sapp_cons in Hfree. destruct Hfree. auto.
      + destruct pre' as [|c' pre'].
        * exfalso. rewrite sapp_nil_l, sapp_cons in Hp. injection Hp as -> <-.
          clear -Hf. induction pre as [|c pre IH]; [by destruct Hf|].
          rewrite sapp_cons in Hf. destruct Hf. auto.
        * rewrite !sapp_cons in Hp. injection Hp as <- Hp.
          cbn [Str.len]. f_equal. by apply IH. }
  replace (Z.to_nat (Z.of_nat (Str.len pre) + 1)) with (Str.len pre + 1)%nat
    by lia.
  rewrite take_app, drop_app. cbn [Str.take Str.drop].
  change (String Str.slash "") with "/".
  assert (Str.len (pre +:+ "/") = S (Str.len pre)) as ->.
  { rewrite len_app. cbn. lia. }
  assert (Str.is_empty (pre +:+ "/") = false) as ->.
  { by destruct pre. }
  cbn [negb andb]. destruct (bool_decide _); cbn [negb]; [done|].
  by rewrite rstrip_char_snoc.
Qed.

End path_facts.

Section split_path_facts.
Implicit Types (s t p pre post a b : string) (c : ascii) (l : list string).

Lemma not_free_of_mid c pre post : ¬ Str.free_of c (pre +:+ String c post).
Proof.
  induction pre as [|d pre IH]; [by intros [? _]|].
  rewrite sapp_cons. intros [_ ?]. auto.
Qed.

Lemma len_replicate n c : Str.len (Str.replicate n c) = n.
Proof. induction n; cbn; [done|]. by f_equal. Qed.

Lemma replicate_snoc n c :
  Str.replicate (S n) c = Str.replicate n c +:+ String c "".
Proof.
  induction n as [|n IH]; [done|].
  cbn [Str.replicate] in *. by rewrite sapp_cons, <-IH.
Qed.

(** A path either has no slash, or a last one. *)
Lemma last_slash p :
  Str.free_of Str.slash p ∨
  ∃ pre post, p = pre +:+ String Str.slash post ∧ Str.free_of Str.slash post.
Proof.
  destruct (rfind_cases Str.slash p) as [[_ ?]|(pre & post & ? & _ & ?)];
    [by left|right; eauto].
Qed.

Lemma split_all_slashes n :
  (0 < n)%nat →
  Path.split (Str.replicate n Str.slash) = (Str.replicate n Str.slash, "").
Proof.
  destruct n as [|n]; [lia|]. intros _.
  rewrite replicate_snoc at 1. rewrite split_slash by done.
  rewrite len_replicate. change "/" with (String Str.slash "").
  rewrite <-replicate_snoc. by rewrite bool_decide_eq_true_2.
Qed.

(** On a head made of slashes the recursion never ends. *)
Lemma split_path_rec_all_slashes depth n :
  (0 < n)%nat → split_path_rec depth (Str.replicate n Str.slash) = None.
Proof.
  intros Hn. induction depth as [|depth IH]; [done|].
  cbn [split_path_rec]. rewrite split_all_slashes by done.
  rewrite len_replicate, (proj2 (Nat.ltb_lt _ _)) by done.
  by rewrite IH.
Qed.

Lemma split_path_rec_mono depth depth' p l :
  split_path_rec depth p = Some l → (depth ≤ depth')%nat →
  split_path_rec depth' p = Some l.
Proof.
  revert depth' p l. induction depth as [|depth IH]; intros depth' p l; [done|].
  destruct depth' as [|depth']; [lia|]. cbn [split_path_rec].
  destruct (Path.split p) as [a b].
  destruct (0 <? Str.len a)%nat; [|done].
  destruct (split_path_rec depth a) as [rest|] eqn:Hrest; [|done].
  intros ??. by rewrite (IH depth' a rest) by (done || lia).
Qed.

(** What [os.path.split] returns as head: nothing, slashes only, or a
    strictly shorter path. *)
Lemma split_head p a b :
  Path.split p = (a, b) →
  a = "" ∨ (∃ n, (0 < n)%nat ∧ a = Str.replicate n Str.slash)
  ∨ (Str.len a < Str.len p)%nat.
Proof.
  destruct (last_slash p) as [Hf|(pre & post & -> & Hf)].
  - rewrite split_no_slash by done. intros [= <- _]. by left.
  - rewrite split_slash by done. case_bool_decide as Hs; intros [= <- _].
    + right. left. exists (S (Str.len pre)). split; [lia|done].
    + right. right. rewrite len_app. cbn [Str.len].
      pose proof (rstrip_char_len Str.slash pre). lia.
Qed.

(** If the recursion ends at all, [len p + 1] nested calls are enough. *)
Lemma split_path_rec_enough depth p l :
  split_path_rec depth p = Some l → split_path p = Some l.
Proof.
  unfold split_path. revert p l.
  induction depth as [|depth IH]; intros p l; [done|].
  cbn [split_path_rec]. destruct (Path.split p) as [a b] eqn:Hsplit.
  destruct (0 <? Str.len a)%nat eqn:Hlen; [|done].
  destruct (split_path_rec depth a) as [rest|] eqn:Hrest; [|done].
  intros [= <-]. apply Nat.ltb_lt in Hlen.
  destruct (split_head _ _ _ Hsplit) as [->|[(n & Hn & ->)|Hshort]].
  - cbn in Hlen. lia.
  - by rewrite split_path_rec_all_slashes in Hrest.
  - apply IH in Hrest.
    by rewrite (split_path_rec_mono _ (Str.len p) _ _ Hrest) by lia.
Qed.

Lemma split_path_adequate p l :
  (∃ depth, split_path_rec depth p = Some l) ↔ split_path p = Some l.
Proof.
  split; [intros [depth ?]; by eapply split_path_rec_enough|].
  intros. by exists (S (Str.len p)).
Qed.

(** An absolute path is never decomposed: every bound is exceeded. *)
Lemma split_path_absolute p depth :
  Str.startswith "/" p = true → split_path_rec depth p = None.
Proof.
  revert p. induction depth as [|depth IH]; intros p Hp; [done|].
  cbn [split_path_rec].
  destruct (last_slash p) as [Hf|(pre & post & -> & Hf)].
  { destruct p as [|c p]; [done|]. cbn in Hp. case_decide; [|done].
    subst c. by destruct Hf. }
  rewrite split_slash by done. case_bool_decide as Hs.
  - rewrite Hs, len_replicate. cbn [Nat.ltb Nat.leb].
    by rewrite split_path_rec_all_slashes by lia.
  - destruct pre as [|c pre]; [done|].
    rewrite sapp_cons in Hp. cbn in Hp. case_decide as Hc; [|done].
    subst c. cbn [Str.rstrip_char]. rewrite decide_True by done.
    destruct (Str.is_empty (Str.rstrip_char Str.slash pre)) eqn:He.
    + exfalso. apply Hs. apply is_empty_true, rstrip_char_empty in He.
      rewrite sapp_cons. cbn [Str.replicate Str.len]. f_equal.
      change (String Str.slash (Str.replicate (Str.len pre) Str.slash))
        with (Str.replicate (S (Str.len pre)) Str.slash).
      rewrite replicate_snoc. by rewrite <-He.
    + cbn [Str.len Nat.ltb Nat.leb]. by rewrite IH.
Qed.

(** A relative path is always decomposed. *)
Lemma split_path_relative p :
  Str.startswith "/" p = false → is_Some (split_path p).
Proof.
  unfold split_path. generalize (Nat.lt_succ_diag_r (Str.len p)).
  generalize (S (Str.len p)) as depth. intros depth. revert p.
  induction depth as [|depth IH]; intros p Hlt Hp; [lia|].
  cbn [split_path_rec].
  destruct (last_slash p) as [Hf|(pre & post & -> & Hf)].
  { rewrite split_no_slash by done. by eexists. }
  rewrite split_slash by done.
  destruct pre as [|c pre]; [done|].
  rewrite sapp_cons in Hp. cbn in Hp. case_decide as Hc; [done|].
  rewrite bool_decide_eq_false_2.
  2:{ rewrite sapp_cons. cbn [Str.replicate]. intros [= ? _]. by subst c. }
  cbn [Str.rstrip_char]. rewrite decide_False by (intros ->; done).
  cbn [Str.len Nat.ltb Nat.leb].
  destruct (IH (String c (Str.rstrip_char Str.slash pre))) as [rest ->].
  - rewrite len_app in Hlt. cbn [Str.len] in *.
    pose proof (rstrip_char_len Str.slash pre). lia.
  - cbn. by rewrite decide_False.
  - by eexists.
Qed.

End split_path_facts.

(** ** [_split_migration_path] *)

Lemma py_index_nat {A} (l : list A) (n : nat) :
  py_index l (Z.of_nat n) =
  match l !! n with Some x => Return x | None => Raise IndexError end.
Proof.
  unfold py_index. rewrite (proj2 (Z.ltb_ge _ _)) by lia.
  rewrite (proj2 (Z.leb_le _ _)) by lia. rewrite Nat2Z.id. cbn [andb].
  destruct (Z.of_nat n <? Z.of_nat (length l)) eqn:Hlt; [done|].
  apply Z.ltb_ge in Hlt. by rewrite lookup_ge_None_2 by lia.
Qed.

Lemma py_index_minus_one {A} (l : list A) :
  py_index l (-1) =
  match last l with Some x => Return x | None => Raise IndexError end.
Proof.
  unfold py_index. rewrite last_lookup.
  change (-1 <? 0) with true. cbn match.
  destruct l as [|x l]; [done|].
  rewrite (proj2 (Z.leb_le _ _)) by (cbn [length]; lia).
  rewrite (proj2 (Z.ltb_lt _ _)) by (cbn [length]; lia). cbn [andb].
  replace (Z.to_nat (-1 + Z.of_nat (length (x :: l))))
    with (Nat.pred (length (x :: l))) by (cbn [length]; lia).
  done.
Qed.

Lemma split_migration_loop_spec decomposed_path (k : nat) rest :
  split_migration_loop decomposed_path (Z.of_nat k) rest =
  match first_migrations rest with
  | None => Return None
  | Some (j, _) => returned_pair decomposed_path (Z.of_nat (k + j))
  end.
Proof.
  unfold first_migrations. revert k.
  induction rest as [|p rest IH]; intros k; [done|].
  cbn [split_migration_loop list_find]. case_decide.
  - cbn. by rewrite Nat.add_0_r.
  - replace (Z.of_nat k + 1) with (Z.of_nat (S k)) by lia. rewrite IH.
    destruct (list_find _ rest) as [[j x]|]; [|done]. cbn.
    by replace (k + S j)%nat with (S k + j)%nat by lia.
Qed.

Lemma split_migration_loop_whole decomposed_path :
  split_migration_loop decomposed_path 0 decomposed_path =
  match first_migrations decomposed_path with
  | None => Return None
  | Some (j, _) => returned_pair decomposed_path (Z.of_nat j)
  end.
Proof. apply (split_migration_loop_spec decomposed_path 0). Qed.

(** [l[i - 1]]: the element before, or the last one when [i] is [0]. *)
Lemma py_index_pred {A} (l : list A) (i : nat) :
  py_index l (Z.of_nat i - 1) =
  match (if i is S i' then l !! i' else last l) with
  | Some x => Return x
  | None => Raise IndexError
  end.
Proof.
  destruct i as [|i].
  - apply py_index_minus_one.
  - replace (Z.of_nat (S i) - 1) with (Z.of_nat i) by lia.
    apply py_index_nat.
Qed.

(** The pair returned, in terms of the decomposed path. *)
Lemma split_migration_path_pair path app_name migration_name :
  _split_migration_path path = Return (Some (app_name, migration_name)) ↔
  ∃ comps i x file_name,
    split_path path = Some comps
    ∧ first_migrations comps = Some (i, x)
    ∧ comps !! S i = Some file_name
    ∧ migration_name = (Path.splitext file_name).1
    ∧ (if i is S i' then comps !! i' else last comps) = Some app_name.
Proof.
  unfold _split_migration_path.
  destruct (split_path path) as [comps|]; [|split; [done|]].
  2:{ by intros (? & ? & ? & ? & ? & _). }
  rewrite split_migration_loop_whole.
  destruct (first_migrations comps) as [[i x]|] eqn:Hfind; [|split; [done|]].
  2:{ intros (? & ? & ? & ? & [= <-] & ? & _). congruence. }
  unfold returned_pair. rewrite py_index_pred.
  replace (Z.of_nat i + 1) with (Z.of_nat (S i)) by lia.
  rewrite (py_index_nat comps (S i)). split.
  - destruct (if i is S i' then comps !! i' else last comps) as [a|] eqn:Ha;
      [|done].
    destruct (comps !! S i) as [f|] eqn:Hf; [|done].
    intros [= <- <-]. by exists comps, i, x, f.
  - intros (comps' & i' & x' & f & [= <-] & Hfind' & Hf & -> & Ha).
    rewrite Hfind in Hfind'. injection Hfind' as <- <-.
    by rewrite Ha, Hf.
Qed.

(** A path is splittable exactly when its first ['migrations'] component
    has a successor. *)
Lemma splittable_iff path :
  splittable path ↔
  ∃ comps i x file_name,
    split_path path = Some comps
    ∧ first_migrations comps = Some (i, x)
    ∧ comps !! S i = Some file_name.
Proof.
  unfold splittable. split.
  - intros (a & n & (comps & i & x & f & ? & ? & ? & _)%split_migration_path_pair).
    by exists comps, i, x, f.
  - intros (comps & i & x & f & Hs & Hfind & Hf).
    assert (is_Some (if i is S i' then comps !! i' else last comps))
      as [a Ha].
    { destruct i as [|i].
      - apply last_is_Some. intros ->. done.
      - apply lookup_lt_is_Some. apply lookup_lt_Some in Hf. lia. }
    exists a, (Path.splitext f).1. apply split_migration_path_pair.
    by exists comps, i, x, f.
Qed.

(** Without a component equal to ['migrations'] the result is [None]. *)
Lemma split_migration_path_none path comps :
  split_path path = Some comps → MIGRATION_FOLDER_NAME ∉ comps →
  _split_migration_path path = Return None.
Proof.
  intros Hs Hnot. unfold _split_migration_path. rewrite Hs.
  rewrite split_migration_loop_whole.
  assert (first_migrations comps = None) as ->; [|done].
  apply list_find_None, Forall_forall. by intros x ? ->.
Qed.

#[global] Instance splittable_dec path : Decision (splittable path).
Proof.
  unfold splittable.
  destruct (_split_migration_path path) as [[[a n]|]|e].
  - left. by exists a, n.
  - right. by intros (? & ? & ?).
  - right. by intros (? & ? & ?).
Defined.

#[global] Instance erroneous_dec w self migration :
  Decision (erroneous w self migration).
Proof.
  unfold erroneous.
  destruct (_split_migration_path migration) as [[[a n]|]|e]; apply _.
Defined.

(** ** The loop of [check_migrations] *)

Section check_facts.
Context (w : world) (self : MigrationChecker).
Implicit Types (migration : string) (files : list string) (counts : nat * nat).

Lemma statements_rendered app_name migration_name :
  sqlmigrate_loop
    (stdout (popen w (sqlmigrate_command (location self) app_name
                                         migration_name))) []
  = rendered w self app_name migration_name.
Proof. by rewrite sqlmigrate_loop_spec. Qed.

(** The set of errors is empty exactly when no rendered statement is
    unsafe. *)
Lemma migration_errors_empty app_name migration_name :
  migration_errors w self app_name migration_name = ∅ ↔
  ¬ Exists unsafe (rendered w self app_name migration_name).
Proof.
  unfold migration_errors. rewrite statements_rendered, errors_loop_empty.
  split.
  - apply Forall_not_Exists.
  - apply (not_Exists_Forall unsafe).
Qed.

Lemma erroneous_split migration app_name migration_name :
  _split_migration_path migration = Return (Some (app_name, migration_name)) →
  erroneous w self migration ↔
  Exists unsafe (rendered w self app_name migration_name).
Proof. intros Hs. unfold erroneous. by rewrite Hs. Qed.

Lemma check_one_counts migration counts :
  splittable migration →
  (check_one w self migration counts).1 =
  Return (if decide (erroneous w self migration)
          then (counts.1, S counts.2) else (S counts.1, counts.2)).
Proof.
  intros (a & n & Hs). rewrite (check_one_some _ _ _ _ _ _ Hs). cbv zeta.
  pose proof (erroneous_split _ _ _ Hs) as Herr.
  pose proof (migration_errors_empty a n) as Hempty.
  destruct (decide (migration_errors w self a n = ∅)) as [He|He],
    (decide (erroneous w self migration)) as [Hm|Hm]; try done.
  - apply Herr in Hm. by apply Hempty in He.
  - destruct He. apply Hempty. by rewrite <-Herr.
Qed.

Lemma check_one_crash migration counts :
  ¬ splittable migration →
  ∃ e, check_one w self migration counts = (Raise e, []).
Proof.
  intros Hn. destruct (_split_migration_path migration) as [[[a n]|]|e] eqn:Hs.
  - destruct Hn. by exists a, n.
  - exists TypeError. by apply check_one_none.
  - exists e. by apply check_one_raise.
Qed.

Lemma check_loop_cons migration files counts :
  check_loop w self (migration :: files) counts =
  match (check_one w self migration counts).1 with
  | Return counts' =>
      ((check_loop w self files counts').1,
       (check_one w self migration counts).2
         ++ (check_loop w self files counts').2)
  | Raise e => (Raise e, (check_one w self migration counts).2)
  end.
Proof.
  cbn [check_loop].
  destruct (check_one w self migration counts) as [[counts'|e] t];
    [apply bind_Return|done].
Qed.

(** Every splittable migration adds one to exactly one of the counters. *)
Lemma check_loop_counts files counts :
  Forall splittable files →
  (check_loop w self files counts).1 =
  Return (counts.1 + length (filter (λ m, ¬ erroneous w self m) files),
          counts.2 + length (filter (erroneous w self) files))%nat.
Proof.
  intros Hall. revert counts.
  induction Hall as [|migration files Hs _ IH]; intros [nv ne].
  - cbn. by rewrite !Nat.add_0_r.
  - rewrite check_loop_cons, (check_one_counts _ _ Hs). cbn [fst snd].
    rewrite IH, !filter_cons.
    destruct (decide (erroneous w self migration)) as [He|He].
    + rewrite decide_False by auto. cbn [fst snd length]. do 2 f_equal. lia.
    + rewrite decide_True by done. cbn [fst snd length]. do 2 f_equal. lia.
Qed.

(** The loop ends without an exception exactly when every path splits. *)
Lemma check_loop_returns files counts :
  (∃ counts', (check_loop w self files counts).1 = Return counts') ↔
  Forall splittable files.
Proof.
  split.
  - revert counts. induction files as [|migration files IH];
      intros counts [counts' Hret]; [done|].
    rewrite check_loop_cons in Hret.
    destruct (decide (splittable migration)) as [Hs|Hs].
    + rewrite (check_one_counts _ _ Hs) in Hret. cbn [fst] in Hret.
      constructor; [done|]. eapply IH. eauto.
    + destruct (check_one_crash migration counts Hs) as [e He].
      by rewrite He in Hret.
  - intros Hall. rewrite (check_loop_counts _ _ Hall). eauto.
Qed.

Lemma check_migrations_unfold :
  check_migrations w self =
  match (check_loop w self (changed_migration_files self) (O, O)).1 with
  | Return counts =>
      (Return counts,
       (check_loop w self (changed_migration_files self) (O, O)).2
       ++ [Print ("*** Summary:" +:+ nl);
           Print (summary_line counts.1
                    (length (changed_migration_files self)) counts.2
                  +:+ nl)])
  | Raise e =>
      (Raise e, (check_loop w self (changed_migration_files self) (O, O)).2)
  end.
Proof.
  unfold check_migrations.
  destruct (check_loop w self (changed_migration_files self) (O, O))
    as [[counts|e] t]; [|done].
  rewrite bind_Return. unfold print. by rewrite !bind_emit.
Qed.

Lemma filter_partition_length {A} (P : A → Prop) `{!∀ x, Decision (P x)}
  (l : list A) :
  (length (filter (λ x, ¬ P x) l) + length (filter P l))%nat = length l.
Proof.
  induction l as [|x l IH]; [done|]. rewrite !filter_cons.
  destruct (decide (P x)).
  - rewrite decide_False by auto. cbn [length]. lia.
  - rewrite decide_True by done. cbn [length]. lia.
Qed.

End check_facts.

(** ** Gathering, [valid_folder] and the main block *)

Lemma gather_migrations_unfold w self :
  _gather_migrations w self =
  let commit := effective_commit w (location self) (commit_id self) in
  let diff_process := popen w (git_diff_command (location self) commit) in
  let trace :=
    (if falsy (commit_id self)
     then [Popen (git_init_cmd (location self))] else [])
    ++ [Popen (git_diff_command (location self) commit)] in
  if decide (returncode diff_process ≠ 0)
  then (Raise (Exception "Error while executing git diff command"), trace)
  else (Return {| location := location self;
                  commit_id := commit;
                  changed_migration_files :=
                    gather_loop (stdout diff_process)
                                (changed_migration_files self) |}, trace).
Proof.
  unfold _gather_migrations, effective_commit.
  destruct (falsy (commit_id self));
    cbv beta iota zeta delta [mbind M_bind mret M_ret run emit raise fst snd];
    by case_decide.
Qed.

Lemma valid_folder_unfold w folder :
  let ok := isdir w folder && isfile w (Path.join folder "manage.py")
            && isdir w (Path.join folder ".git") in
  ∃ msg, valid_folder w folder =
         (Return ok, if ok then [] else [Print (msg +:+ nl)]).
Proof.
  unfold valid_folder.
  destruct (isdir w folder); cbn [negb andb]; [|by eexists].
  destruct (isfile w _); cbn [negb andb]; [|by eexists].
  destruct (isdir w _); cbn [negb andb]; by eexists.
Qed.

Lemma main_unfold w folder_name commit :
  main w folder_name commit =
  match (valid_folder w folder_name).1 with
  | Return true =>
      match (MigrationChecker_init w folder_name commit).1 with
      | Return checker =>
          match (check_migrations w checker).1 with
          | Return counts =>
              (Return (Some counts),
               (valid_folder w folder_name).2
               ++ (MigrationChecker_init w folder_name commit).2
               ++ (check_migrations w checker).2)
          | Raise e =>
              (Raise e,
               (valid_folder w folder_name).2
               ++ (MigrationChecker_init w folder_name commit).2
               ++ (check_migrations w checker).2)
          end
      | Raise e =>
          (Raise e,
           (valid_folder w folder_name).2
           ++ (MigrationChecker_init w folder_name commit).2)
      end
  | Return false => (Return None, (valid_folder w folder_name).2)
  | Raise e => (Raise e, (valid_folder w folder_name).2)
  end.
Proof.
  unfold main.
  destruct (valid_folder w folder_name) as [[[|]|e] t0]; cbn [fst snd];
    [|by rewrite bind_Return, List.app_nil_r|done].
  rewrite bind_Return.
  destruct (MigrationChecker_init w folder_name commit) as [[checker|e] t1];
    cbn [fst snd]; [|done].
  rewrite bind_Return.
  destruct (check_migrations w checker) as [[counts|e] t2]; cbn [fst snd];
    [|done].
  rewrite bind_Return. cbn [fst snd mret M_ret]. by rewrite List.app_nil_r.
Qed.

(** * The properties of the specification *)

(** Every gathered file is counted once, as erroneous or as valid, and the
    summary that is printed adds up. *)
Definition counted_once (w : world) (self : MigrationChecker) : Prop :=
  let files := changed_migration_files self in
  let nb_valid := length (filter (λ m, ¬ erroneous w self m) files) in
  let nb_erroneous := length (filter (erroneous w self) files) in
  (check_migrations w self).1 = Return (nb_valid, nb_erroneous)
  ∧ (nb_valid + nb_erroneous)%nat = length files
  ∧ ∃ t, (check_migrations w self).2 =
         t ++ [Print ("*** Summary:" +:+ nl);
               Print (summary_line nb_valid (length files) nb_erroneous
                      +:+ nl)].


(** ** C1: the statement test *)

(** C1.  [_test_sql_statement_for_backward_incompatibility] returns
    [is_valid = False] for a statement if and only if at least one of the
    three patterns ['NOT NULL'], ['DROP COLUMN'], ['ADD COLUMN .* DEFAULT']
    occurs in it ([unsafe]); the three patterns occur exactly in the
    statements that hold the text [NOT NULL], the text [DROP COLUMN], or
    [ADD COLUMN ] followed on the same line by [ DEFAULT].  So every
    statement containing [NOT NULL] is flagged, every statement containing
    [ADD COLUMN x INT DEFAULT 0] is flagged, a plain [CREATE INDEX]
    statement is not, and a statement in which none of the three occurs is
    never flagged: nothing else is checked. *)
Theorem statement_flagged_iff_rule_matches :
  (∀ sql, (_test_sql_statement_for_backward_incompatibility sql).1 = false
          ↔ unsafe sql)
  ∧ (∀ sql, unsafe sql ↔
       substring "NOT NULL" sql ∨ substring "DROP COLUMN" sql
       ∨ ∃ a mid b, sql = a +:+ "ADD COLUMN " +:+ mid +:+ " DEFAULT" +:+ b
                    ∧ Str.free_of Str.newline mid)
  ∧ (∀ a b, (_test_sql_statement_for_backward_incompatibility
               (a +:+ "NOT NULL" +:+ b)).1 = false)
  ∧ (∀ a b, (_test_sql_statement_for_backward_incompatibility
               (a +:+ "ADD COLUMN x INT DEFAULT 0" +:+ b)).1 = false)
  ∧ _test_sql_statement_for_backward_incompatibility
      "CREATE INDEX idx ON t (c);" = (true, None)
  ∧ (∀ sql, ¬ unsafe sql →
       _test_sql_statement_for_backward_incompatibility sql = (true, None)).
Proof.
  assert (∀ sql, unsafe sql ↔
       substring "NOT NULL" sql ∨ substring "DROP COLUMN" sql
       ∨ ∃ a mid b, sql = a +:+ "ADD COLUMN " +:+ mid +:+ " DEFAULT" +:+ b
                    ∧ Str.free_of Str.newline mid) as Hunsafe.
  { intros sql. unfold unsafe.
    by rewrite rule_not_null_spec, rule_drop_column_spec,
      rule_add_column_default_spec. }
  split_and!.
  - apply test_invalid_iff.
  - apply Hunsafe.
  - intros a b. apply test_invalid_iff, Hunsafe. left. by exists a, b.
  - intros a b. apply test_invalid_iff, Hunsafe. right. right.
    exists a, "x INT", (" 0" +:+ b). split; [|by repeat split].
    by f_equal.
  - reflexivity.
  - intros sql Hsafe.
    destruct (test_result_shape sql) as [(? & _ & _ & ?)|[? _]]; done.
Qed.

(** ** C3: which changed files are gathered *)

(** C3.  When [_gather_migrations] succeeds, [changed_migration_files] is
    the list of the lines of the diff output that contain the substring
    ['migrations'] ([MIGRATION_FOLDER_NAME]), in order and each stripped:
    a line is added if and only if it contains that substring, which is
    what the [in] test decides. *)
Theorem gathered_iff_contains_migrations w django_folder commit self :
  (MigrationChecker_init w django_folder commit).1 = Return self →
  let lines :=
    stdout (popen w (git_diff_command django_folder
                       (effective_commit w django_folder commit))) in
  changed_migration_files self =
    Str.strip <$> filter (substring MIGRATION_FOLDER_NAME) lines
  ∧ (∀ x, x ∈ changed_migration_files self ↔
          ∃ l, l ∈ lines ∧ substring "migrations" l ∧ x = Str.strip l)
  ∧ (∀ l, Str.contains MIGRATION_FOLDER_NAME l = true
          ↔ substring "migrations" l).
Proof.
  intros Hinit lines. unfold MigrationChecker_init in Hinit.
  rewrite gather_migrations_unfold in Hinit. cbv zeta in Hinit.
  cbn [location commit_id changed_migration_files] in Hinit.
  fold lines in Hinit. case_decide; [done|].
  cbn [fst] in Hinit. injection Hinit as <-.
  cbn [changed_migration_files]. rewrite gather_loop_spec. cbn [app].
  split_and!; [done| |intros; apply contains_spec].
  intros x. rewrite list_elem_of_fmap. setoid_rewrite list_elem_of_filter.
  naive_solver.
Qed.

Lemma gathered_iff_contains_migrations_demo :
  changed_migration_files
    (demo_checker ["app/migrations/0001_initial.py";
                   "blog/migrations/0002_add.py"]) =
  Str.strip <$> filter (substring MIGRATION_FOLDER_NAME) demo_diff.
Proof.
  apply (gathered_iff_contains_migrations (demo_world demo_diff 0) "proj"
           (Some "abc123")).
  vm_compute. reflexivity.
Defined.

(** ** C4: a failing diff command *)

(** C4.  If the diff command exits with a non-zero return code,
    [_gather_migrations] raises [Exception('Error while executing git diff
    command')]; the diff command has then been run exactly once (no retry)
    and is the last command run, and the main block ends with that
    exception without running any [sqlmigrate] command and without printing
    any verdict or summary.  If the diff command exits with [0], no
    exception is raised. *)
Theorem diff_failure_is_fatal w django_folder commit :
  let c := effective_commit w django_folder commit in
  let rc := returncode (popen w (git_diff_command django_folder c)) in
  let ran :=
    (if falsy commit then [git_init_cmd django_folder] else [])
    ++ [git_diff_command django_folder c] in
  (rc ≠ 0 →
     (MigrationChecker_init w django_folder commit).1
       = Raise (Exception "Error while executing git diff command")
     ∧ commands (MigrationChecker_init w django_folder commit).2 = ran
     ∧ ((valid_folder w django_folder).1 = Return true →
        (main w django_folder commit).1
          = Raise (Exception "Error while executing git diff command")
        ∧ commands (main w django_folder commit).2 = ran
        ∧ printed (main w django_folder commit).2 = []))
  ∧ (rc = 0 →
     ∃ self, (MigrationChecker_init w django_folder commit).1 = Return self
             ∧ commands (MigrationChecker_init w django_folder commit).2
               = ran).
Proof.
  intros c rc ran.
  assert (commands (MigrationChecker_init w django_folder commit).2 = ran
          ∧ printed (MigrationChecker_init w django_folder commit).2 = [])
    as [Hran Hprinted].
  { unfold MigrationChecker_init. rewrite gather_migrations_unfold.
    cbv zeta. cbn [location commit_id]. fold c.
    case_decide; cbn [snd]; by destruct (falsy commit). }
  split.
  - intros Hrc.
    assert ((MigrationChecker_init w django_folder commit).1
            = Raise (Exception "Error while executing git diff command"))
      as Hraise.
    { unfold MigrationChecker_init. rewrite gather_migrations_unfold.
      cbv zeta. cbn [location commit_id]. fold c. fold rc.
      by rewrite decide_True. }
    split_and!; [done..|]. intros Hvalid.
    rewrite main_unfold, Hvalid, Hraise. cbn [fst snd].
    destruct (valid_folder_unfold w django_folder) as [msg Hvf].
    rewrite Hvf in Hvalid |- *. cbn [fst snd] in *.
    injection Hvalid as ->. cbn [app]. by rewrite Hran, Hprinted.
  - intros Hrc. revert Hran. unfold MigrationChecker_init.
    rewrite gather_migrations_unfold. cbv zeta. cbn [location commit_id].
    fold c. fold rc. rewrite decide_False by (intros Hne; by apply Hne).
    cbn [fst snd]. eauto.
Qed.

Lemma diff_failure_is_fatal_demo :
  (main (demo_world demo_diff 128) "proj" None).1
    = Raise (Exception "Error while executing git diff command")
  ∧ commands (main (demo_world demo_diff 128) "proj" None).2
    = [git_init_cmd "proj"; git_diff_command "proj" (Some "abc123")]
  ∧ printed (main (demo_world demo_diff 128) "proj" None).2 = [].
Proof.
  apply (diff_failure_is_fatal (demo_world demo_diff 128) "proj" None).
  - vm_compute. discriminate.
  - vm_compute. reflexivity.
Defined.

(** ** C5: [valid_folder] *)

(** C5.  [valid_folder] returns [True] if and only if the argument is a
    directory, [manage.py] joined to it is a file, and [.git] joined to it
    is a directory; it runs no command; it prints nothing when it returns
    [True] and exactly one message when it returns [False]; and when it
    returns [False] the main block ends there: it prints only that message,
    runs no command (no checker is built, no migration is checked) and
    returns normally. *)
Theorem valid_folder_three_checks w folder :
  let ok := isdir w folder && isfile w (Path.join folder "manage.py")
            && isdir w (Path.join folder ".git") in
  (valid_folder w folder).1 = Return ok
  ∧ commands (valid_folder w folder).2 = []
  ∧ length (printed (valid_folder w folder).2) = (if ok then 0 else 1)%nat
  ∧ (ok = false → ∀ commit,
       main w folder commit = (Return None, (valid_folder w folder).2)
       ∧ commands (main w folder commit).2 = []
       ∧ length (printed (main w folder commit).2) = 1%nat)
  ∧ Path.join folder "manage.py" =
      (if Str.is_empty folder || Path.endswith_slash folder
       then folder +:+ "manage.py" else folder +:+ "/" +:+ "manage.py")
  ∧ Path.join folder ".git" =
      (if Str.is_empty folder || Path.endswith_slash folder
       then folder +:+ ".git" else folder +:+ "/" +:+ ".git").
Proof.
  intros ok. destruct (valid_folder_unfold w folder) as [msg Hvf].
  fold ok in Hvf. rewrite Hvf. cbn [fst snd].
  split_and!; [done|by destruct ok|by destruct ok| |done|done].
  intros Hok commit. rewrite main_unfold, Hvf. cbn [fst snd].
  rewrite Hok. done.
Qed.

Lemma valid_folder_three_checks_demo :
  main (demo_world demo_diff 0) "elsewhere" None
  = (Return None,
     [Print (line "The passed argument doesn't seem to be a folder.")]).
Proof.
  apply (valid_folder_three_checks (demo_world demo_diff 0) "elsewhere").
  vm_compute. reflexivity.
Defined.

(** ** C8: comment lines of the rendered SQL *)



(** ** C10: one message per statement, each message once per migration *)

(** C10.  For every statement the test yields the message of the first
    rule that matches, in the order [NOT NULL constraint on columns],
    [DROPPING columns], [ADD columns with default], and no message when no
    rule matches: at most one message per statement (a statement matching
    both the [NOT NULL] and the [ADD COLUMN .* DEFAULT] rule yields the
    [NOT NULL] message only).  For every migration, the error lines that
    one turn of the loop of [check_migrations] prints are the lines of a
    duplicate-free list of messages, each one of the three: a message is
    printed at most once however many statements produced it. *)
Theorem first_rule_message_printed_once :
  (∀ sql, rule_not_null sql →
     _test_sql_statement_for_backward_incompatibility sql
     = (false, Some "NOT NULL constraint on columns"))
  ∧ (∀ sql, ¬ rule_not_null sql → rule_drop_column sql →
     _test_sql_statement_for_backward_incompatibility sql
     = (false, Some "DROPPING columns"))
  ∧ (∀ sql, ¬ rule_not_null sql → ¬ rule_drop_column sql →
     rule_add_column_default sql →
     _test_sql_statement_for_backward_incompatibility sql
     = (false, Some "ADD columns with default"))
  ∧ (∀ sql, ¬ rule_not_null sql → ¬ rule_drop_column sql →
     ¬ rule_add_column_default sql →
     _test_sql_statement_for_backward_incompatibility sql = (true, None))
  ∧ (rule_not_null "ALTER TABLE t ADD COLUMN c INT DEFAULT 0 NOT NULL;"
     ∧ rule_add_column_default
         "ALTER TABLE t ADD COLUMN c INT DEFAULT 0 NOT NULL;"
     ∧ _test_sql_statement_for_backward_incompatibility
         "ALTER TABLE t ADD COLUMN c INT DEFAULT 0 NOT NULL;"
       = (false, Some "NOT NULL constraint on columns"))
  ∧ (∀ w self migration counts, iter_ok w →
     ∃ errs, NoDup errs
       ∧ (∀ err, err ∈ errs → err ∈ known_messages)
       ∧ NoDup (message_lines errs)
       ∧ ((check_one w self migration counts).2 = []
          ∨ ∃ head verdict,
              (check_one w self migration counts).2
              = head ++ Print verdict :: message_lines errs
              ∧ printed head = [(migration +:+ "... ") +:+ ""])).
Proof.
  unfold rule_not_null, rule_drop_column, rule_add_column_default.
  split_and!.
  - intros sql ?%re_search_spec. rewrite test_first_rule. by case_match.
  - intros sql Hn ?%re_search_spec. rewrite test_first_rule.
    rewrite <-re_search_spec in Hn. by repeat case_match.
  - intros sql Hn Hd ?%re_search_spec. rewrite test_first_rule.
    rewrite <-re_search_spec in Hn, Hd. by repeat case_match.
  - intros sql Hn Hd Ha. rewrite test_first_rule.
    rewrite <-re_search_spec in Hn, Hd, Ha. by repeat case_match.
  - by apply re_search_spec.
  - by apply re_search_spec.
  - reflexivity.
  - intros w self migration counts Hiter.
    assert (∀ X : gset string, NoDup (message_lines (set_iter w X)))
      as Hlines.
    { intros X. unfold message_lines. apply NoDup_fmap_2.
      - intros e1 e2 He. injection He as He. by apply sapp_inj_r in He.
      - rewrite (Hiter X). apply NoDup_elements. }
    destruct (_split_migration_path migration) as [[[a n]|]|e] eqn:Hs.
    + exists (if decide (migration_errors w self a n = ∅) then []
              else set_iter w (migration_errors w self a n)).
      rewrite (check_one_some _ _ _ _ _ _ Hs). cbv zeta.
      destruct (decide (migration_errors w self a n = ∅)) as [He|He].
      * split_and!; [constructor|by intros ? ?%elem_of_nil|constructor|].
        right. eexists _, _. split; [reflexivity|done].
      * split_and!.
        -- rewrite (Hiter _). apply NoDup_elements.
        -- intros err. rewrite (Hiter _), elem_of_elements.
           apply errors_loop_known.
        -- apply Hlines.
        -- right. eexists _, _. split; [reflexivity|done].
    + exists []. rewrite (check_one_none _ _ _ _ Hs).
      split_and!; [constructor|by intros ? ?%elem_of_nil|constructor|by left].
    + exists []. rewrite (check_one_raise _ _ _ _ _ Hs).
      split_and!; [constructor|by intros ? ?%elem_of_nil|constructor|by left].
Qed.

Lemma first_rule_message_printed_once_demo :
  ∃ errs, NoDup errs
    ∧ (∀ err, err ∈ errs → err ∈ known_messages)
    ∧ NoDup (message_lines errs)
    ∧ ((check_one (demo_world demo_diff 0) (demo_checker [])
          "blog/migrations/0002_add.py" (O, O)).2 = []
       ∨ ∃ head verdict,
           (check_one (demo_world demo_diff 0) (demo_checker [])
              "blog/migrations/0002_add.py" (O, O)).2
           = head ++ Print verdict :: message_lines errs
           ∧ printed head = [("blog/migrations/0002_add.py" +:+ "... ") +:+ ""]).
Proof.
  apply first_rule_message_printed_once.
  intros X. reflexivity.
Defined.

(** ** C2: counting the migrations *)

(** C2, amended.  For every run of [check_migrations] in which every
    gathered path splits into an application and a migration name (exactly
    the runs that do not raise, see [check_loop_returns]), each gathered
    file is counted exactly once: one turn of the loop adds one to
    [nb_erroneous] if at least one rendered non-comment statement of the
    migration matches one of the three rules, and one to [nb_valid]
    otherwise; the summary printed last shows these counts, and
    [nb_valid + nb_erroneous = len(changed_migration_files)]. *)
Theorem every_splittable_migration_counted_once w self :
  Forall splittable (changed_migration_files self) →
  counted_once w self
  ∧ (∀ migration counts, migration ∈ changed_migration_files self →
       (check_one w self migration counts).1 =
       Return (if decide (erroneous w self migration)
               then (counts.1, S counts.2) else (S counts.1, counts.2)))
  ∧ (∀ migration app_name migration_name,
       _split_migration_path migration
         = Return (Some (app_name, migration_name)) →
       erroneous w self migration ↔
       ∃ l, l ∈ stdout (popen w (sqlmigrate_command (location self) app_name
                                                    migration_name))
            ∧ Str.startswith "--" l = false ∧ unsafe (Str.strip l)).
Proof.
  intros Hall. split_and!.
  - unfold counted_once. cbv zeta. rewrite check_migrations_unfold.
    rewrite (check_loop_counts _ _ _ _ Hall). cbn [fst snd Nat.add].
    split_and!;
      [done|apply (filter_partition_length (erroneous w self))|by eexists].
  - intros migration counts Hin. apply check_one_counts.
    by eapply Forall_forall in Hall.
  - intros migration a n Hs. rewrite (erroneous_split _ _ _ _ _ Hs).
    rewrite Exists_exists. unfold rendered.
    setoid_rewrite list_elem_of_fmap. setoid_rewrite list_elem_of_filter.
    naive_solver.
Qed.

Lemma every_splittable_migration_counted_once_demo :
  counted_once (demo_world demo_diff 0)
    (demo_checker ["app/migrations/0001_initial.py";
                   "blog/migrations/0002_add.py"]).
Proof.
  apply (every_splittable_migration_counted_once (demo_world demo_diff 0)
    (demo_checker ["app/migrations/0001_initial.py";
                   "blog/migrations/0002_add.py"])).
  repeat constructor.
  - exists "app", "0001_initial". vm_compute. reflexivity.
  - exists "blog", "0002_add". vm_compute. reflexivity.
Defined.

(** C2 does not hold of every run: a changed file whose path contains
    ['migrations'] without having a path component equal to it (here
    [docs/migrations.md]) is gathered, [_split_migration_path] returns
    [None] for it, and [check_migrations] raises [TypeError] at the
    unpacking, before the file is counted and before any summary is
    printed. *)
Lemma unsplittable_path_not_counted :
  (MigrationChecker_init (demo_world [line "docs/migrations.md"] 0) "proj"
     (Some "abc123")).1 = Return (demo_checker ["docs/migrations.md"])
  ∧ check_migrations (demo_world [line "docs/migrations.md"] 0)
      (demo_checker ["docs/migrations.md"]) = (Raise TypeError, [])
  ∧ ¬ counted_once (demo_world [line "docs/migrations.md"] 0)
        (demo_checker ["docs/migrations.md"]).
Proof.
  split_and!.
  - vm_compute. reflexivity.
  - vm_compute. reflexivity.
  - intros [Hret _]. vm_compute in Hret. discriminate.
Qed.

(** ** C6: the exit status *)



(** ** C9: which paths [_split_migration_path] accepts *)

Lemma splittable_has_component path :
  splittable path ↔ has_migrations_component path.
Proof.
  rewrite splittable_iff. unfold has_migrations_component, first_migrations.
  split.
  - intros (comps & i & x & f & Hs & (Hi & -> & _)%list_find_Some & Hf).
    by exists comps, i, f.
  - intros (comps & i & f & Hs & Hi & Hf).
    destruct (list_find_elem_of (λ p, p = MIGRATION_FOLDER_NAME) comps
                MIGRATION_FOLDER_NAME) as [[i0 x0] Hfind];
      [by eapply list_elem_of_lookup_2|done|].
    pose proof Hfind as (Hi0 & _ & Hmin)%list_find_Some.
    assert (i0 ≤ i)%nat as Hle.
    { destruct (decide (i0 ≤ i)%nat) as [|Hgt]; [done|].
      destruct (Hmin i MIGRATION_FOLDER_NAME Hi); [lia|done]. }
    destruct (lookup_lt_is_Some_2 comps (S i0)) as [f0 Hf0].
    { apply lookup_lt_Some in Hf. lia. }
    by exists comps, i0, x0, f0.
Qed.

(** C9, amended.  [_split_migration_path] returns a pair only when some
    component of the decomposed path equals ['migrations'] exactly (and the
    first such component is followed by another one); [migration_name] is
    that following component without its extension and, when the
    ['migrations'] component is not the first component of the path,
    [app_name] is the component immediately before it.  A relative path
    always decomposes, and when none of its components equals
    ['migrations'] (as for [docs/migrations.md], which gathering admits
    because it contains the substring) the result is [None] and the
    unpacking in [check_migrations] raises [TypeError].  So
    [check_migrations] completes without exception only if (indeed exactly
    when) every gathered path has a component equal to ['migrations'] that
    is followed by another component.  On a path that starts with a slash
    [split_path] never returns. *)
Theorem split_migration_path_needs_component :
  (∀ path app_name migration_name,
     _split_migration_path path = Return (Some (app_name, migration_name)) →
     ∃ comps i file_name,
       split_path path = Some comps
       ∧ comps !! i = Some MIGRATION_FOLDER_NAME
       ∧ (∀ j, (j < i)%nat → comps !! j ≠ Some MIGRATION_FOLDER_NAME)
       ∧ comps !! S i = Some file_name
       ∧ migration_name = (Path.splitext file_name).1
       ∧ (∀ i', i = S i' → comps !! i' = Some app_name))
  ∧ (∀ path comps,
       split_path path = Some comps → MIGRATION_FOLDER_NAME ∉ comps →
       _split_migration_path path = Return None
       ∧ unpack None = Raise TypeError
       ∧ ∀ w self counts,
           check_one w self path counts = (Raise TypeError, [])
           ∧ ∀ rest, check_loop w self (path :: rest) counts
                     = (Raise TypeError, []))
  ∧ (Str.contains MIGRATION_FOLDER_NAME "docs/migrations.md" = true
     ∧ split_path "docs/migrations.md" = Some ["docs"; "migrations.md"]
     ∧ _split_migration_path "docs/migrations.md" = Return None)
  ∧ (∀ w self,
       (∃ counts, (check_migrations w self).1 = Return counts) ↔
       Forall has_migrations_component (changed_migration_files self))
  ∧ (∀ path, Str.startswith "/" path = false → is_Some (split_path path))
  ∧ (∀ path, Str.startswith "/" path = true →
       _split_migration_path path = Raise RuntimeError).
Proof.
  split; [|split; [|split; [|split; [|split]]]];
    [| | | |apply split_path_relative|].
  5:{ intros path Hp. unfold _split_migration_path, split_path.
      by rewrite split_path_absolute. }
  - intros path a n
      (comps & i & x & f & Hs & Hfind & Hf & -> & Ha)%split_migration_path_pair.
    apply list_find_Some in Hfind as (Hi & -> & Hmin).
    exists comps, i, f. split_and!; [done..| |done|done|].
    + intros j Hj Hjm. by destruct (Hmin j MIGRATION_FOLDER_NAME Hjm Hj).
    + by intros i' ->.
  - intros path comps Hs Hnot.
    pose proof (split_migration_path_none _ _ Hs Hnot) as Hnone.
    split_and!; [done..|]. intros w self counts.
    pose proof (check_one_none w self path counts Hnone) as Hone.
    split; [done|]. intros rest. by rewrite check_loop_cons, Hone.
  - by vm_compute.
  - intros w self. rewrite check_migrations_unfold.
    rewrite <-(Forall_iff splittable _ has_migrations_component
                 splittable_has_component).
    rewrite <-(check_loop_returns w self _ (O, O)).
    destruct (check_loop w self (changed_migration_files self) (O, O)).1
      as [counts|e]; cbn [fst].
    + split; eauto.
    + split; by intros [? ?].
Qed.

Lemma split_migration_path_needs_component_demo :
  ∃ comps i file_name,
    split_path "app/migrations/0001_initial.py" = Some comps
    ∧ comps !! i = Some MIGRATION_FOLDER_NAME
    ∧ (∀ j, (j < i)%nat → comps !! j ≠ Some MIGRATION_FOLDER_NAME)
    ∧ comps !! S i = Some file_name
    ∧ "0001_initial" = (Path.splitext file_name).1
    ∧ (∀ i', i = S i' → comps !! i' = Some "app").
Proof.
  apply (proj1 split_migration_path_needs_component
           "app/migrations/0001_initial.py" "app" "0001_initial").
  vm_compute. reflexivity.
Defined.

(** C9 does not hold where ['migrations'] is the first component: the
    index [i - 1] is then [-1], which Python reads as the last element, so
    for [migrations/0001_initial.py] a pair is returned whose [app_name] is
    the file name, and [check_migrations] completes although ['migrations']
    is not an interior component.  Nor is [None] returned for every path
    that has ['migrations'] only inside a component: on an absolute one the
    recursion of [split_path] never ends. *)
Lemma leading_migrations_component_accepted :
  split_path "migrations/0001_initial.py"
    = Some ["migrations"; "0001_initial.py"]
  ∧ _split_migration_path "migrations/0001_initial.py"
    = Return (Some ("0001_initial.py", "0001_initial"))
  ∧ (check_migrations (demo_world [] 0)
       (demo_checker ["migrations/0001_initial.py"])).1 = Return (1, 0)%nat
  ∧ ¬ Forall has_interior_migrations
        (changed_migration_files (demo_checker ["migrations/0001_initial.py"]))
  ∧ Str.contains MIGRATION_FOLDER_NAME "/docs/migrations.md" = true
  ∧ _split_migration_path "/docs/migrations.md" = Raise RuntimeError.
Proof.
  split_and!; [by vm_compute..| |by vm_compute|by vm_compute].
  intros Hall. apply Forall_cons in Hall as [(comps & i & a & f & Hs & _ & Hm & _) _].
  vm_compute in Hs. injection Hs as <-.
  destruct i as [|[|i]]; discriminate.
Qed.

(** ** C7: the check is a function of the command outputs *)

Section two_runs.
Context (w1 w2 : world) (self1 self2 : MigrationChecker).
Hypothesis iter1 : iter_ok w1.
Hypothesis iter2 : iter_ok w2.
Hypothesis same_sql : ∀ app_name migration_name,
  popen w1 (sqlmigrate_command (location self1) app_name migration_name)
  = popen w2 (sqlmigrate_command (location self2) app_name migration_name).





End two_runs.



(** ** The sample run, printed *)

Example demo_run_output :
  printed (main (demo_world demo_diff 0) "proj" None).2 =
  [ "app/migrations/0001_initial.py... "; line "OK";
    "blog/migrations/0002_add.py... "; line "ERR" ]
  ++ ((λ err, line (tab +:+ err))
        <$> elements ({[ "ADD columns with default";
                         "NOT NULL constraint on columns";
                         "DROPPING columns" ]} : gset string))
  ++ [ line "*** Summary:";
       line "Valid migrations: 1/2 - erroneous migrations: 1/2" ].
Proof. vm_compute. reflexivity. Qed.

Example demo_run_output_reversed :
  printed (main (demo_world_reversed demo_diff 0) "proj" None).2 =
  [ "app/migrations/0001_initial.py... "; line "OK";
    "blog/migrations/0002_add.py... "; line "ERR" ]
  ++ ((λ err, line (tab +:+ err))
        <$> reverse (elements ({[ "ADD columns with default";
                                  "NOT NULL constraint on columns";
                                  "DROPPING columns" ]} : gset string)))
  ++ [ line "*** Summary:";
       line "Valid migrations: 1/2 - erroneous migrations: 1/2" ].
Proof. vm_compute. reflexivity. Qed.

(** * Further properties of the code *)

(** ** Stripping keeps what lies between two non-blank characters *)

Section strip_facts.
Implicit Types (s t a b m : string) (c d : ascii).

Lemma is_empty_mid s d t : Str.is_empty (s +:+ String d t) = false.
Proof. by destruct s. Qed.

Lemma rstrip_keeps s d t :
  Str.is_space d = false →
  Str.rstrip (s +:+ String d t) = s +:+ String d (Str.rstrip t).
Proof.
  intros Hd. induction s as [|c s IH].
  - rewrite !sapp_nil_l. cbn [Str.rstrip]. by rewrite Hd.
  - rewrite !sapp_cons. cbn [Str.rstrip]. rewrite IH, is_empty_mid.
    by rewrite andb_false_r.
Qed.

Lemma lstrip_keeps a c t :
  Str.is_space c = false →
  ∃ a', Str.lstrip (a +:+ String c t) = a' +:+ String c t.
Proof.
  intros Hc. induction a as [|d a IH].
  - exists "". rewrite !sapp_nil_l. cbn [Str.lstrip]. by rewrite Hc.
  - rewrite sapp_cons. cbn [Str.lstrip]. destruct (Str.is_space d).
    + apply IH.
    + by exists (String d a).
Qed.

Lemma lstrip_head s :
  Str.lstrip s = "" ∨ ∃ c t, Str.lstrip s = String c t ∧ Str.is_space c = false.
Proof.
  induction s as [|c s IH]; [by left|]. cbn [Str.lstrip].
  destruct (Str.is_space c) eqn:Hc; [done|]. right. by exists c, s.
Qed.

Lemma rstrip_idemp s : Str.rstrip (Str.rstrip s) = Str.rstrip s.
Proof.
  induction s as [|c s IH]; [done|]. cbn [Str.rstrip].
  destruct (Str.is_space c && Str.is_empty (Str.rstrip s)) eqn:Hc; [done|].
  cbn [Str.rstrip]. by rewrite IH, Hc.
Qed.

Lemma strip_idemp s : Str.strip (Str.strip s) = Str.strip s.
Proof.
  unfold Str.strip.
  destruct (lstrip_head s) as [->|(c & t & -> & Hc)]; [done|].
  assert (∀ u, Str.rstrip (String c u) = String c (Str.rstrip u)) as Hr.
  { intros u. cbn [Str.rstrip]. by rewrite Hc. }
  rewrite Hr. cbn [Str.lstrip]. rewrite Hc, Hr. by rewrite rstrip_idemp.
Qed.

(** A substring that starts and ends with a non-blank character survives
    [strip]. *)
Lemma strip_keeps_core a c m d b :
  Str.is_space c = false → Str.is_space d = false →
  ∃ a' b', Str.strip (a +:+ String c (m +:+ String d b))
           = a' +:+ String c (m +:+ String d b').
Proof.
  intros Hc Hd. unfold Str.strip.
  destruct (lstrip_keeps a c (m +:+ String d b) Hc) as [a' ->].
  exists a', (Str.rstrip b).
  change (a' +:+ String c (m +:+ String d b))
    with (a' +:+ (String c m +:+ String d b)).
  rewrite sapp_assoc, rstrip_keeps by done. by rewrite <-sapp_assoc.
Qed.

End strip_facts.

Lemma substring_strip c m d s :
  Str.is_space c = false → Str.is_space d = false →
  substring (String c (m +:+ String d "")) s →
  substring (String c (m +:+ String d "")) (Str.strip s).
Proof.
  intros Hc Hd (a & b & ->).
  destruct (strip_keeps_core a c m d b Hc Hd) as (a' & b' & Hs).
  assert (∀ x, String c (m +:+ String d "") +:+ x
               = String c (m +:+ String d x)) as Heq.
  { intros x. by rewrite sapp_cons, <-sapp_assoc. }
  exists a', b'. by rewrite !Heq.
Qed.

(** ** Surrounding whitespace does not change a verdict *)

(** X1.  Whether a statement matches one of the three rules does not depend
    on the whitespace around it: the stripped statement is unsafe exactly
    when the raw line is.  So a migration is erroneous exactly when some
    line of the renderer's output that does not start with [--] is unsafe
    as printed, and the test gives the same answer on a line and on the
    stripped line. *)
Theorem verdict_ignores_surrounding_whitespace :
  (∀ sql, unsafe (Str.strip sql) ↔ unsafe sql)
  ∧ (∀ sql, _test_sql_statement_for_backward_incompatibility (Str.strip sql)
            = _test_sql_statement_for_backward_incompatibility sql)
  ∧ (∀ w self migration app_name migration_name,
       _split_migration_path migration
         = Return (Some (app_name, migration_name)) →
       erroneous w self migration ↔
       ∃ l, l ∈ stdout (popen w (sqlmigrate_command (location self) app_name
                                                    migration_name))
            ∧ Str.startswith "--" l = false ∧ unsafe l).
Proof.
  assert (∀ sql, rule_not_null (Str.strip sql) ↔ rule_not_null sql) as Hnn.
  { intros sql. split.
    - destruct (strip_substring sql) as (a & b & Hab). intros H.
      rewrite Hab. by apply occurs_app.
    - rewrite !rule_not_null_spec.
      by apply (substring_strip "N" "OT NUL" "L"). }
  assert (∀ sql, rule_drop_column (Str.strip sql) ↔ rule_drop_column sql)
    as Hdc.
  { intros sql. split.
    - destruct (strip_substring sql) as (a & b & Hab). intros H.
      rewrite Hab. by apply occurs_app.
    - rewrite !rule_drop_column_spec.
      by apply (substring_strip "D" "ROP COLUM" "N"). }
  assert (∀ sql, rule_add_column_default (Str.strip sql)
                 ↔ rule_add_column_default sql) as Had.
  { intros sql. split.
    - destruct (strip_substring sql) as (a & b & Hab). intros H.
      rewrite Hab. by apply occurs_app.
    - rewrite !rule_add_column_default_spec.
      intros (a & mid & b & -> & Hmid).
      assert (∀ x, "ADD COLUMN " +:+ mid +:+ " DEFAULT" +:+ x
                   = String "A" (("DD COLUMN " +:+ mid +:+ " DEFAUL")
                                 +:+ String "T" x)) as Heq.
      { intros x. by rewrite <-!sapp_assoc. }
      destruct (strip_keeps_core a "A" ("DD COLUMN " +:+ mid +:+ " DEFAUL")
                  "T" b) as (a' & b' & Hs); [done..|].
      exists a', mid, b'. split; [|done]. by rewrite !Heq. }
  assert (∀ sql, unsafe (Str.strip sql) ↔ unsafe sql) as Hunsafe.
  { intros sql. unfold unsafe. by rewrite Hnn, Hdc, Had. }
  split_and!; [done| |].
  - intros sql. rewrite !test_first_rule.
    assert (∀ r s, Re.re_search r (Str.strip s) = Re.re_search r s
                   ↔ (Re.occurs r (Str.strip s) ↔ Re.occurs r s)) as Hb.
    { intros r s. rewrite <-!re_search_spec.
      destruct (Re.re_search r (Str.strip s)), (Re.re_search r s);
        intuition congruence. }
    by rewrite (proj2 (Hb _ _) (Hnn sql)), (proj2 (Hb _ _) (Hdc sql)),
      (proj2 (Hb _ _) (Had sql)).
  - intros w self migration a n Hs. rewrite (erroneous_split _ _ _ _ _ Hs).
    rewrite Exists_exists. unfold rendered.
    setoid_rewrite list_elem_of_fmap. setoid_rewrite list_elem_of_filter.
    split.
    + intros (sql & (l & -> & ? & ?) & Hu). exists l.
      apply (proj1 (Hunsafe l)) in Hu. by split_and!.
    + intros (l & ? & ? & Hu). exists (Str.strip l).
      apply (proj2 (Hunsafe l)) in Hu. split; [exists l; by split_and!|done].
Qed.

(** ** What the gathered list holds *)

(** X2.  After a successful construction of the checker, every entry of
    [changed_migration_files] still contains the substring ['migrations']
    and carries no surrounding whitespace (stripping it again changes
    nothing), and there are at most as many entries as diff lines. *)
Theorem gathered_paths_are_stripped_and_contain_migrations
  w django_folder commit self :
  (MigrationChecker_init w django_folder commit).1 = Return self →
  Forall (λ path, substring MIGRATION_FOLDER_NAME path
                  ∧ Str.strip path = path
                  ∧ Str.contains MIGRATION_FOLDER_NAME path = true)
         (changed_migration_files self)
  ∧ (length (changed_migration_files self)
     ≤ length (stdout (popen w (git_diff_command django_folder
                  (effective_commit w django_folder commit)))))%nat.
Proof.
  intros Hinit. unfold MigrationChecker_init in Hinit.
  rewrite gather_migrations_unfold in Hinit. cbv zeta in Hinit.
  cbn [location commit_id changed_migration_files] in Hinit.
  case_decide; [done|]. cbn [fst] in Hinit. injection Hinit as <-.
  cbn [changed_migration_files]. rewrite gather_loop_spec. cbn [app].
  split.
  - apply Forall_fmap, Forall_forall. intros l [Hl _]%list_elem_of_filter.
    cbn. assert (substring MIGRATION_FOLDER_NAME (Str.strip l)) as Hsub.
    { by apply (substring_strip "m" "igration" "s"). }
    split_and!; [done|apply strip_idemp|by apply contains_spec].
  - rewrite length_fmap. apply length_filter.
Qed.

Lemma gathered_paths_are_stripped_and_contain_migrations_demo :
  Forall (λ path, substring MIGRATION_FOLDER_NAME path
                  ∧ Str.strip path = path
                  ∧ Str.contains MIGRATION_FOLDER_NAME path = true)
         ["app/migrations/0001_initial.py"; "blog/migrations/0002_add.py"]
  ∧ (2 ≤ length demo_diff)%nat.
Proof.
  apply (gathered_paths_are_stripped_and_contain_migrations
           (demo_world demo_diff 0) "proj" (Some "abc123")
           (demo_checker ["app/migrations/0001_initial.py";
                          "blog/migrations/0002_add.py"])).
  vm_compute. reflexivity.
Defined.

(** ** [split_path]: when it returns, and what it returns *)

(** ['/'.join(comps)] *)
Fixpoint join_slash (comps : list string) : string :=
  match comps with
  | [] => ""
  | [c] => c
  | c :: rest => c +:+ String Str.slash (join_slash rest)
  end.

Section split_path_more.
Implicit Types (s p pre post c : string) (comps : list string).

Lemma split_tail_free p : Str.free_of Str.slash (Path.split p).2.
Proof.
  destruct (last_slash p) as [Hf|(pre & post & -> & Hf)].
  - by rewrite split_no_slash.
  - by rewrite split_slash.
Qed.

Lemma split_path_rec_comps depth p comps :
  split_path_rec depth p = Some comps →
  comps ≠ [] ∧ Forall (Str.free_of Str.slash) comps
  ∧ last comps = Some (Path.split p).2.
Proof.
  revert p comps. induction depth as [|depth IH]; intros p comps; [done|].
  cbn [split_path_rec]. pose proof (split_tail_free p) as Hb.
  destruct (Path.split p) as [a b]. cbn [snd] in *.
  destruct (0 <? Str.len a)%nat.
  - destruct (split_path_rec depth a) as [rest|] eqn:Hrest; [|done].
    intros [= <-]. destruct (IH _ _ Hrest) as (_ & Hall & _).
    split_and!.
    + by destruct rest.
    + apply Forall_app. split; [done|by constructor].
    + by rewrite last_snoc.
  - intros [= <-]. split_and!; [done|by repeat constructor|done].
Qed.

Lemma split_path_free p :
  Str.free_of Str.slash p → split_path p = Some [p].
Proof.
  intros Hf. unfold split_path. cbn [split_path_rec].
  by rewrite split_no_slash.
Qed.

Lemma endswith_slash_snoc s : Path.endswith_slash (s +:+ "/") = true.
Proof.
  induction s as [|c s IH]; [done|]. rewrite sapp_cons.
  cbn [Path.endswith_slash]. destruct (s +:+ "/") eqn:Hs; [|done].
  by destruct s.
Qed.

Lemma rstrip_char_id s :
  Path.endswith_slash s = false → Str.rstrip_char Str.slash s = s.
Proof.
  induction s as [|d s IH]; [done|]. cbn [Path.endswith_slash Str.rstrip_char].
  destruct s as [|e s].
  - intros Hd%bool_decide_eq_false. cbn. by rewrite decide_False.
  - intros Hs. rewrite (IH Hs). cbn [Str.is_empty]. by case_decide.
Qed.

(** One more component at the end of a relative path. *)
Lemma split_path_snoc p c :
  Str.startswith "/" p = false → p ≠ "" → Path.endswith_slash p = false →
  Str.free_of Str.slash c →
  split_path (p +:+ String Str.slash c) = (λ comps, comps ++ [c]) <$> split_path p.
Proof.
  intros Hrel Hne Hend Hc.
  destruct (split_path_relative p Hrel) as [comps Hcomps]. rewrite Hcomps.
  unfold split_path. cbn [split_path_rec]. rewrite split_slash by done.
  destruct p as [|d p]; [done|].
  rewrite bool_decide_eq_false_2.
  2:{ rewrite sapp_cons. cbn [Str.replicate Str.len]. intros [= -> _].
      cbn in Hrel. by rewrite decide_True in Hrel. }
  rewrite rstrip_char_id by done. cbn [Str.len Nat.ltb Nat.leb].
  rewrite (split_path_rec_mono _ _ _ _ Hcomps); [done|].
  rewrite len_app. cbn [Str.len]. lia.
Qed.

Lemma join_slash_snoc comps c :
  comps ≠ [] →
  join_slash (comps ++ [c]) = join_slash comps +:+ String Str.slash c.
Proof.
  induction comps as [|x comps IH]; [done|]. intros _.
  destruct comps as [|y comps]; [done|].
  change (join_slash ((x :: y :: comps) ++ [c]))
    with (x +:+ String Str.slash (join_slash ((y :: comps) ++ [c]))).
  rewrite IH by done.
  change (join_slash (x :: y :: comps))
    with (x +:+ String Str.slash (join_slash (y :: comps))).
  by rewrite <-sapp_assoc.
Qed.

Lemma split_path_round_trip_aux n p :
  (Str.len p < n)%nat → Str.startswith "/" p = false → ¬ substring "//" p →
  ∃ comps, split_path p = Some comps ∧ join_slash comps = p.
Proof.
  revert p. induction n as [|n IH]; intros p Hlen Hrel Hdouble; [lia|].
  destruct (last_slash p) as [Hf|(pre & post & -> & Hf)].
  { exists [p]. by rewrite split_path_free. }
  assert (pre ≠ "") as Hne by (by intros ->).
  assert (Str.startswith "/" pre = false) as Hrel'.
  { destruct pre as [|d pre]; [done|]. by rewrite sapp_cons in Hrel. }
  assert (Path.endswith_slash pre = false) as Hend.
  { destruct (Path.endswith_slash pre) eqn:He; [|done]. destruct Hdouble.
    clear -He. induction pre as [|d pre IHp]; [done|].
    cbn [Path.endswith_slash] in He. destruct pre as [|e pre].
    - apply bool_decide_eq_true in He as ->. by exists "", post.
    - destruct (IHp He) as (a & b & Hab). exists (String d a), b.
      rewrite sapp_cons. by rewrite Hab. }
  destruct (IH pre) as (comps & Hcomps & Hjoin); [| done | |].
  - rewrite len_app in Hlen. cbn [Str.len] in Hlen. lia.
  - intros (a & b & ->). apply Hdouble.
    exists a, (b +:+ String Str.slash post). by rewrite <-!sapp_assoc.
  - exists (comps ++ [post]). rewrite split_path_snoc, Hcomps by done.
    split; [done|]. rewrite join_slash_snoc, Hjoin; [done|].
    by destruct (split_path_rec_comps _ _ _ Hcomps).
Qed.

End split_path_more.

(** X3.  [split_path] returns exactly on the paths that do not start with
    a slash: on a relative path the recursion ends within [len(path) + 1]
    calls, on an absolute path no number of nested calls is enough (the
    interpreter gives up with [RuntimeError]), and [_split_migration_path]
    then raises that error. *)
Theorem split_path_returns_iff_relative path :
  (is_Some (split_path path) ↔ Str.startswith "/" path = false)
  ∧ (Str.startswith "/" path = true ↔
     ∀ depth, split_path_rec depth path = None)
  ∧ (Str.startswith "/" path = true ↔
     _split_migration_path path = Raise RuntimeError).
Proof.
  assert (Str.startswith "/" path = true ↔
          ∀ depth, split_path_rec depth path = None) as Habs.
  { split; [intros H depth; by apply split_path_absolute|].
    intros Hnone. destruct (Str.startswith "/" path) eqn:Hrel; [done|].
    destruct (split_path_relative path Hrel) as [comps Hc].
    unfold split_path in Hc. by rewrite Hnone in Hc. }
  split_and!; [|done|].
  - split; [|apply split_path_relative].
    intros [comps Hc]. destruct (Str.startswith "/" path) eqn:Hrel; [|done].
    unfold split_path in Hc. by rewrite split_path_absolute in Hc.
  - unfold _split_migration_path. split.
    + intros Hrel. unfold split_path. by rewrite split_path_absolute.
    + destruct (Str.startswith "/" path) eqn:Hrel; [done|].
      destruct (split_path_relative path Hrel) as [comps ->].
      rewrite split_migration_loop_whole.
      destruct (first_migrations comps) as [[i x]|]; [|done].
      unfold returned_pair. rewrite py_index_pred.
      destruct (if i is S i' then comps !! i' else last comps); [|done].
      replace (Z.of_nat i + 1) with (Z.of_nat (S i)) by lia.
      rewrite py_index_nat. by destruct (comps !! S i).
Qed.

(** X4.  Whenever [split_path] returns, the list is not empty, no component
    contains a slash, and the last component is what follows the last slash
    of the path.  On a relative path without a doubled slash the
    decomposition loses nothing: joining the components with slashes gives
    the path back. *)
Theorem split_path_components path :
  (∀ comps, split_path path = Some comps →
     comps ≠ [] ∧ Forall (Str.free_of Str.slash) comps
     ∧ last comps = Some (Path.split path).2)
  ∧ (Str.startswith "/" path = false → ¬ substring "//" path →
     ∃ comps, split_path path = Some comps ∧ join_slash comps = path).
Proof.
  split.
  - intros comps. apply split_path_rec_comps.
  - apply (split_path_round_trip_aux (S (Str.len path))). lia.
Qed.

Lemma split_path_components_demo :
  ∃ comps, split_path "blog/migrations/0002_add.py" = Some comps
           ∧ join_slash comps = "blog/migrations/0002_add.py".
Proof.
  apply (proj2 (split_path_components "blog/migrations/0002_add.py")).
  - reflexivity.
  - intros Hd%contains_spec. vm_compute in Hd. discriminate.
Defined.

(** ** [_split_migration_path]: every way it can end *)

(** X5.  [_split_migration_path] raises [IndexError] exactly when the first
    component equal to ['migrations'] is the last component of the path
    (nothing follows it), returns [None] exactly when the path decomposes
    and no component equals ['migrations'], and never raises [TypeError] or
    a plain [Exception]. *)
Theorem split_migration_path_outcomes path :
  (_split_migration_path path = Raise IndexError ↔
   ∃ comps i, split_path path = Some comps
              ∧ comps !! i = Some MIGRATION_FOLDER_NAME
              ∧ (∀ j, (j < i)%nat → comps !! j ≠ Some MIGRATION_FOLDER_NAME)
              ∧ length comps = S i)
  ∧ (_split_migration_path path = Return None ↔
     ∃ comps, split_path path = Some comps ∧ MIGRATION_FOLDER_NAME ∉ comps)
  ∧ _split_migration_path path ≠ Raise TypeError
  ∧ (∀ msg, _split_migration_path path ≠ Raise (Exception msg)).
Proof.
  unfold _split_migration_path.
  destruct (split_path path) as [comps|] eqn:Hsplit.
  2:{ split_and!; [split; [done|by intros (? & ? & ? & _)]
                  |split; [done|by intros (? & ? & _)]|done|done]. }
  rewrite split_migration_loop_whole. unfold first_migrations.
  destruct (list_find (λ p, p = MIGRATION_FOLDER_NAME) comps)
    as [[i x]|] eqn:Hfind.
  - apply list_find_Some in Hfind as (Hi & -> & Hmin).
    unfold returned_pair. rewrite py_index_pred.
    assert (is_Some (if i is S i' then comps !! i' else last comps))
      as [a ->].
    { destruct i as [|i].
      - apply last_is_Some. by intros ->.
      - apply lookup_lt_is_Some. apply lookup_lt_Some in Hi. lia. }
    replace (Z.of_nat i + 1) with (Z.of_nat (S i)) by lia.
    rewrite py_index_nat.
    destruct (comps !! S i) as [f|] eqn:Hf.
    + split_and!; [split; [done|]|split; [done|]|done|done].
      * intros (comps' & i' & [= <-] & Hi' & Hmin' & Hlen).
        assert (i' = i) as ->.
        { destruct (Nat.lt_trichotomy i' i) as [Hlt|[->|Hlt]]; [|done|].
          - by destruct (Hmin i' MIGRATION_FOLDER_NAME Hi' Hlt).
          - by destruct (Hmin' i Hlt). }
        apply lookup_lt_Some in Hf. lia.
      * intros (comps' & [= <-] & Hnot). destruct Hnot.
        by eapply list_elem_of_lookup_2.
    + split_and!; [split; [intros _|done]|split; [done|]|done|done].
      * exists comps, i. split_and!; [done..| |].
        -- intros j Hj Hjm. by destruct (Hmin j MIGRATION_FOLDER_NAME Hjm Hj).
        -- apply lookup_ge_None in Hf. apply lookup_lt_Some in Hi. lia.
      * intros (comps' & [= <-] & Hnot). destruct Hnot.
        by eapply list_elem_of_lookup_2.
  - apply list_find_None in Hfind.
    split_and!; [split; [done|]|split; [intros _|done]|done|done].
    + intros (comps' & i & [= <-] & Hi & _).
      eapply Forall_lookup_1 in Hfind; [|exact Hi]. done.
    + exists comps. split; [done|]. intros Hin.
      eapply Forall_forall in Hfind; [|exact Hin]. done.
Qed.

(** ** The path of an ordinary migration file *)

Section ordinary_path.
Implicit Types (s t p pre post name ext : string) (c : ascii).

Lemma free_of_app c s t :
  Str.free_of c (s +:+ t) ↔ Str.free_of c s ∧ Str.free_of c t.
Proof.
  induction s as [|d s IH]; [by rewrite sapp_nil_l; cbn; intuition|].
  rewrite sapp_cons. cbn [Str.free_of]. rewrite IH. intuition.
Qed.

Lemma rfind_free c s : Str.free_of c s → Str.rfind c s = -1.
Proof.
  intros Hf. destruct (rfind_cases c s) as [[? _]|(pre & post & -> & _)];
    [done|]. by destruct (not_free_of_mid c pre post).
Qed.

(** The last occurrence of a character is where nothing after it holds
    that character. *)
Lemma rfind_last c pre post :
  Str.free_of c post →
  Str.rfind c (pre +:+ String c post) = Z.of_nat (Str.len pre).
Proof.
  intros Hpost.
  destruct (rfind_cases c (pre +:+ String c post))
    as [[_ Hf]|(pre' & post' & Heq & -> & Hpost')].
  { by destruct (not_free_of_mid c pre post). }
  do 2 f_equal. revert pre' Heq.
  induction pre as [|d pre IH]; intros [|d' pre'] Heq; [done| | |].
  - rewrite sapp_nil_l, sapp_cons in Heq. injection Heq as <- ->.
    by destruct (not_free_of_mid c pre' post').
  - rewrite sapp_nil_l, sapp_cons in Heq. injection Heq as -> <-.
    by destruct (not_free_of_mid c pre post).
  - rewrite !sapp_cons in Heq. injection Heq as <- Heq.
    f_equal. by apply IH.
Qed.

Lemma take_len s t : Str.take (Str.len s) (s +:+ t) = s.
Proof.
  rewrite <-(Nat.add_0_r (Str.len s)), take_app.
  destruct t; cbn [Str.take]; by rewrite sapp_nil_r.
Qed.

Lemma drop_len s t : Str.drop (Str.len s) (s +:+ t) = t.
Proof. rewrite <-(Nat.add_0_r (Str.len s)), drop_app. by destruct t. Qed.

(** [os.path.splitext] on [name.ext]. *)
Lemma splitext_name_ext c name ext :
  c ≠ Str.dot → Str.free_of Str.slash (String c name) →
  Str.free_of Str.dot ext → Str.free_of Str.slash ext →
  Path.splitext (String c name +:+ String Str.dot ext)
  = (String c name, String Str.dot ext).
Proof.
  intros Hc Hname Hdot Hslash. unfold Path.splitext.
  rewrite (rfind_free Str.slash).
  2:{ apply free_of_app. split; [done|]. split; [done|done]. }
  rewrite rfind_last by done.
  rewrite (proj2 (Z.ltb_lt _ _)) by lia.
  replace (Z.to_nat (Z.of_nat (Str.len (String c name)) - (-1 + 1)))
    with (Str.len (String c name)) by lia.
  change (Z.to_nat (-1 + 1)) with O. cbn [Str.drop].
  rewrite Nat2Z.id, take_len, drop_len.
  rewrite sapp_cons. cbn [Str.len Path.has_non_dot].
  by rewrite decide_False.
Qed.

Lemma endswith_slash_app s c t :
  Path.endswith_slash (s +:+ String c t) = Path.endswith_slash (String c t).
Proof.
  induction s as [|d s IH]; [done|]. rewrite sapp_cons, <-IH.
  destruct (s +:+ String c t) eqn:Hs; [by destruct s|done].
Qed.

End ordinary_path.

(** X6.  For the path of an ordinary migration file,
    [<dir>/migrations/<name>.<ext>], where [<dir>] is a relative path
    without trailing slash none of whose components is ['migrations'],
    [_split_migration_path] returns the last component of [<dir>] as
    [app_name] and [<name>] as [migration_name]. *)
Theorem split_ordinary_migration_path dir c name ext :
  Str.startswith "/" dir = false → dir ≠ "" →
  Path.endswith_slash dir = false →
  (∀ comps, split_path dir = Some comps → MIGRATION_FOLDER_NAME ∉ comps) →
  c ≠ Str.dot → Str.free_of Str.slash (String c name) →
  Str.free_of Str.dot ext → Str.free_of Str.slash ext →
  _split_migration_path
    (dir +:+ "/migrations/" +:+ String c name +:+ String Str.dot ext)
  = Return (Some ((Path.split dir).2, String c name)).
Proof.
  intros Hrel Hne Hend Hnot Hc Hname Hdot Hslash.
  destruct (split_path_relative dir Hrel) as [comps Hcomps].
  destruct (split_path_rec_comps _ _ _ Hcomps) as (Hnil & _ & Hlast).
  specialize (Hnot comps Hcomps).
  set (file := String c name +:+ String Str.dot ext).
  assert (Str.free_of Str.slash file) as Hfile.
  { apply free_of_app. split; [done|]. split; [done|done]. }
  assert (split_path (dir +:+ "/migrations/" +:+ file)
          = Some (comps ++ [MIGRATION_FOLDER_NAME; file])) as Hsplit.
  { change (dir +:+ "/migrations/" +:+ file)
      with (dir +:+ ("/migrations" +:+ String Str.slash file)).
    rewrite sapp_assoc, split_path_snoc; [| | | |done].
    - change (dir +:+ "/migrations")
        with (dir +:+ String Str.slash "migrations").
      rewrite split_path_snoc, Hcomps by (done || by repeat split).
      cbn. by rewrite <-List.app_assoc.
    - destruct dir; [done|]. by rewrite sapp_cons.
    - by destruct dir.
    - by rewrite endswith_slash_app. }
  apply split_migration_path_pair.
  exists (comps ++ [MIGRATION_FOLDER_NAME; file]), (length comps),
    MIGRATION_FOLDER_NAME, file.
  split_and!; [done| | | |].
  - apply list_find_Some. split_and!; [|done|].
    + by rewrite lookup_app_r, Nat.sub_diag by lia.
    + intros j y Hj Hlt ->. rewrite lookup_app_l in Hj by done.
      destruct Hnot. by eapply list_elem_of_lookup_2.
  - rewrite lookup_app_r by lia.
    by replace (S (length comps) - length comps)%nat with 1%nat by lia.
  - unfold file. by rewrite splitext_name_ext.
  - destruct (length comps) as [|n] eqn:Hlen.
    + by destruct comps.
    + rewrite lookup_app_l by lia. rewrite <-Hlast, last_lookup, Hlen. done.
Qed.

Lemma split_ordinary_migration_path_demo :
  _split_migration_path
    ("src/shop" +:+ "/migrations/" +:+ "0003_add_price" +:+ ".py")
  = Return (Some ("shop", "0003_add_price")).
Proof.
  apply (split_ordinary_migration_path "src/shop" "0" "003_add_price" "py").
  - reflexivity.
  - discriminate.
  - reflexivity.
  - intros comps [= <-] Hin. by repeat (apply elem_of_cons in Hin as [?|Hin];
      [discriminate|]); apply elem_of_nil in Hin.
  - discriminate.
  - by repeat split.
  - by repeat split.
  - by repeat split.
Defined.

(** ** Which messages a migration gets *)

Lemma test_message_iff sql :
  (_test_sql_statement_for_backward_incompatibility sql
     = (false, Some "NOT NULL constraint on columns") ↔ rule_not_null sql)
  ∧ (_test_sql_statement_for_backward_incompatibility sql
       = (false, Some "DROPPING columns")
     ↔ ¬ rule_not_null sql ∧ rule_drop_column sql)
  ∧ (_test_sql_statement_for_backward_incompatibility sql
       = (false, Some "ADD columns with default")
     ↔ ¬ rule_not_null sql ∧ ¬ rule_drop_column sql
       ∧ rule_add_column_default sql).
Proof.
  unfold rule_not_null, rule_drop_column, rule_add_column_default.
  rewrite <-!re_search_spec, test_first_rule.
  destruct (Re.re_search (Re.re_compile NOT_NULL_PATTERN) sql),
    (Re.re_search (Re.re_compile DROP_COLUMN_PATTERN) sql),
    (Re.re_search (Re.re_compile ADD_COLUMN_DEFAULT_PATTERN) sql);
    split_and!; split; try done; intuition congruence.
Qed.

(** X7.  The set of messages of a migration, rule by rule: the [NOT NULL]
    message is in it exactly when some rendered statement matches the
    [NOT NULL] rule; the [DROPPING columns] message exactly when some
    rendered statement matches the [DROP COLUMN] rule without matching the
    [NOT NULL] rule; the [ADD columns with default] message exactly when
    some rendered statement matches the third rule and neither of the first
    two.  A rule is thus masked in a statement by an earlier one. *)
Theorem messages_rule_by_rule w self app_name migration_name :
  ("NOT NULL constraint on columns"
     ∈ migration_errors w self app_name migration_name
   ↔ Exists rule_not_null (rendered w self app_name migration_name))
  ∧ ("DROPPING columns" ∈ migration_errors w self app_name migration_name
     ↔ Exists (λ sql, ¬ rule_not_null sql ∧ rule_drop_column sql)
              (rendered w self app_name migration_name))
  ∧ ("ADD columns with default"
       ∈ migration_errors w self app_name migration_name
     ↔ Exists (λ sql, ¬ rule_not_null sql ∧ ¬ rule_drop_column sql
                      ∧ rule_add_column_default sql)
              (rendered w self app_name migration_name)).
Proof.
  unfold migration_errors. rewrite statements_rendered.
  rewrite !errors_loop_elem, !Exists_exists.
  split_and!; (split;
    [intros [?%not_elem_of_empty|(sql & Hin & Ht)]; [done|];
     exists sql; split; [done|]; by apply test_message_iff
    |intros (sql & Hin & Hr); right; exists sql; split; [done|];
     by apply test_message_iff]).
Qed.

(** X8.  The set of messages of a migration depends only on which lines the
    renderer printed, not on their order or on how often a line occurs:
    two outputs with the same lines give the same set, hence the same
    verdict. *)
Theorem messages_ignore_order_and_repetition
  w1 w2 self1 self2 app_name migration_name :
  (∀ l,
     l ∈ stdout (popen w1 (sqlmigrate_command (location self1) app_name
                                              migration_name))
     ↔ l ∈ stdout (popen w2 (sqlmigrate_command (location self2) app_name
                                                migration_name))) →
  migration_errors w1 self1 app_name migration_name
  = migration_errors w2 self2 app_name migration_name.
Proof.
  intros Hsame. apply set_eq. intros msg. unfold migration_errors.
  rewrite !statements_rendered, !errors_loop_elem. unfold rendered.
  setoid_rewrite list_elem_of_fmap. setoid_rewrite list_elem_of_filter.
  split; (intros [?|(sql & (l & -> & Hc & Hl) & Ht)]; [by left|]; right;
    exists (Str.strip l); split; [|done]; exists l;
    split; [done|]; split; [done|]; by apply Hsame).
Qed.

Lemma messages_ignore_order_and_repetition_demo :
  migration_errors (demo_world demo_diff 0) (demo_checker []) "blog" "0002_add"
  = migration_errors
      {| popen := λ _, {| stdout :=
                            [line "ALTER TABLE t DROP COLUMN w;";
                             line "ALTER TABLE u ADD COLUMN z INT NOT NULL;";
                             line "ALTER TABLE t DROP COLUMN w;";
                             line "ALTER TABLE t ADD COLUMN y INT NOT NULL;";
                             line "ALTER TABLE t ADD COLUMN x INT DEFAULT 0;"];
                          returncode := 0 |};
         isdir := λ _, true; isfile := λ _, true; set_iter := elements |}
      (demo_checker []) "blog" "0002_add".
Proof.
  apply messages_ignore_order_and_repetition.
  intros l.
  change (l ∈ [line "ALTER TABLE t ADD COLUMN x INT DEFAULT 0;";
               line "ALTER TABLE t ADD COLUMN y INT NOT NULL;";
               line "ALTER TABLE u ADD COLUMN z INT NOT NULL;";
               line "ALTER TABLE t DROP COLUMN w;"]
          ↔ l ∈ [line "ALTER TABLE t DROP COLUMN w;";
                 line "ALTER TABLE u ADD COLUMN z INT NOT NULL;";
                 line "ALTER TABLE t DROP COLUMN w;";
                 line "ALTER TABLE t ADD COLUMN y INT NOT NULL;";
                 line "ALTER TABLE t ADD COLUMN x INT DEFAULT 0;"]).
  rewrite !elem_of_cons, !elem_of_nil. tauto.
Defined.

(** ** A migration that renders to nothing *)

(** X9.  The return code of the renderer is never looked at: a migration
    whose [sqlmigrate] command prints nothing on standard output (for
    instance because it failed) is reported [OK] and counted as valid. *)
Theorem silent_renderer_counts_as_valid
  w self migration app_name migration_name counts :
  _split_migration_path migration
    = Return (Some (app_name, migration_name)) →
  stdout (popen w (sqlmigrate_command (location self) app_name
                                      migration_name)) = [] →
  check_one w self migration counts =
  (Return (S counts.1, counts.2),
   [Popen (sqlmigrate_command (location self) app_name migration_name);
    Print ((migration +:+ "... ") +:+ "");
    Print ("OK" +:+ nl)]).
Proof.
  intros Hs Hout. rewrite (check_one_some _ _ _ _ _ _ Hs). cbv zeta.
  unfold migration_errors. rewrite Hout. cbn [sqlmigrate_loop errors_loop].
  by rewrite decide_True.
Qed.

Lemma silent_renderer_counts_as_valid_demo :
  returncode (popen (demo_world demo_diff 0)
                (sqlmigrate_command "proj" "shop" "0001_initial")) = 1
  ∧ check_one (demo_world demo_diff 0) (demo_checker [])
      "shop/migrations/0001_initial.py" (O, O) =
    (Return (1, 0)%nat,
     [Popen (sqlmigrate_command "proj" "shop" "0001_initial");
      Print (("shop/migrations/0001_initial.py" +:+ "... ") +:+ "");
      Print ("OK" +:+ nl)]).
Proof.
  split; [reflexivity|].
  apply (silent_renderer_counts_as_valid (demo_world demo_diff 0)
           (demo_checker []) "shop/migrations/0001_initial.py"
           "shop" "0001_initial" (O, O)).
  - vm_compute. reflexivity.
  - reflexivity.
Defined.

(** ** The commands a run issues, and where a run stops *)

(** The [sqlmigrate] command of a gathered path, when the path splits. *)
Definition sqlmigrate_of (self : MigrationChecker) (migration : string)
  : option string :=
  match _split_migration_path migration with
  | Return (Some (app_name, migration_name)) =>
      Some (sqlmigrate_command (location self) app_name migration_name)
  | _ => None
  end.

Lemma omap_unfold {A B} (f : A → option B) x l :
  omap f (x :: l)
  = match f x with Some y => y :: omap f l | None => omap f l end.
Proof. reflexivity. Qed.

Lemma commands_Popen cmd t : commands (Popen cmd :: t) = cmd :: commands t.
Proof. reflexivity. Qed.

Lemma commands_Print text t : commands (Print text :: t) = commands t.
Proof. reflexivity. Qed.

(** The only exceptions [_split_migration_path] can raise. *)
Lemma split_migration_path_raises path e :
  _split_migration_path path = Raise e → e = IndexError ∨ e = RuntimeError.
Proof.
  unfold _split_migration_path.
  destruct (split_path path) as [comps|]; [|intros [= <-]; by right].
  rewrite split_migration_loop_whole.
  destruct (first_migrations comps) as [[i x]|]; [|done].
  unfold returned_pair. rewrite py_index_pred.
  destruct (if i is S i' then comps !! i' else last comps);
    [|intros [= <-]; by left].
  replace (Z.of_nat i + 1) with (Z.of_nat (S i)) by lia.
  rewrite py_index_nat.
  destruct (comps !! S i); [done|intros [= <-]; by left].
Qed.

Section run_facts.
Context (w : world) (self : MigrationChecker).
Implicit Types (files good rest : list string) (counts : nat * nat).

Lemma commands_check_one migration counts :
  splittable migration →
  commands (check_one w self migration counts).2
  = option_list (sqlmigrate_of self migration).
Proof.
  intros (a & n & Hs). rewrite (check_one_some _ _ _ _ _ _ Hs). cbv zeta.
  unfold sqlmigrate_of. rewrite Hs.
  destruct (decide (migration_errors w self a n = ∅)); cbn [snd]; [done|].
  rewrite commands_app, commands_Popen, !commands_Print.
  by rewrite commands_message_lines.
Qed.

Lemma commands_check_loop files counts :
  Forall splittable files →
  commands (check_loop w self files counts).2
  = omap (sqlmigrate_of self) files
  ∧ length (omap (sqlmigrate_of self) files) = length files.
Proof.
  intros Hall. revert counts.
  induction Hall as [|migration files Hs Hall IH]; intros counts; [done|].
  rewrite check_loop_cons, (check_one_counts _ _ _ _ Hs). cbn [fst snd].
  rewrite commands_app, (commands_check_one _ _ Hs).
  destruct (IH (if decide (erroneous w self migration)
                then (counts.1, S counts.2) else (S counts.1, counts.2)))
    as [-> Hlen].
  assert (∃ cmd, sqlmigrate_of self migration = Some cmd) as [cmd Hcmd].
  { destruct Hs as (a & n & Hs). unfold sqlmigrate_of. rewrite Hs. eauto. }
  rewrite !omap_unfold, Hcmd. cbn [option_list app length]. by rewrite Hlen.
Qed.

Lemma check_loop_app good rest counts :
  check_loop w self (good ++ rest) counts =
  match (check_loop w self good counts).1 with
  | Return counts' =>
      ((check_loop w self rest counts').1,
       (check_loop w self good counts).2 ++ (check_loop w self rest counts').2)
  | Raise e => (Raise e, (check_loop w self good counts).2)
  end.
Proof.
  revert counts. induction good as [|migration good IH]; intros counts.
  - cbn [app check_loop mret M_ret fst snd]. by destruct (check_loop _ _ _ _).
  - change ((migration :: good) ++ rest) with (migration :: (good ++ rest)).
    rewrite !check_loop_cons.
    destruct (check_one w self migration counts).1 as [counts'|e];
      cbn [fst snd]; [|done].
    rewrite IH. destruct (check_loop w self good counts').1; cbn [fst snd];
      by rewrite ?List.app_assoc.
Qed.

End run_facts.

(** X10.  A run of [check_migrations] that completes issues exactly one
    command per gathered file, in the order of the list: the [sqlmigrate]
    command for the application and migration name the path splits into,
    run in the folder of the checker; it issues no other command. *)
Theorem one_sqlmigrate_per_migration w self :
  Forall splittable (changed_migration_files self) →
  commands (check_migrations w self).2
  = omap (sqlmigrate_of self) (changed_migration_files self)
  ∧ length (commands (check_migrations w self).2)
    = length (changed_migration_files self).
Proof.
  intros Hall. rewrite check_migrations_unfold.
  rewrite (check_loop_counts _ _ _ _ Hall). cbn [fst snd].
  rewrite commands_app. cbn [commands omap]. rewrite List.app_nil_r.
  destruct (commands_check_loop w self _ (O, O) Hall) as [-> Hlen]. done.
Qed.

Lemma one_sqlmigrate_per_migration_demo :
  commands (check_migrations (demo_world demo_diff 0)
              (demo_checker ["app/migrations/0001_initial.py";
                             "blog/migrations/0002_add.py"])).2
  = [sqlmigrate_command "proj" "app" "0001_initial";
     sqlmigrate_command "proj" "blog" "0002_add"].
Proof.
  apply (one_sqlmigrate_per_migration (demo_world demo_diff 0)
    (demo_checker ["app/migrations/0001_initial.py";
                   "blog/migrations/0002_add.py"])).
  repeat constructor.
  - exists "app", "0001_initial". vm_compute. reflexivity.
  - exists "blog", "0002_add". vm_compute. reflexivity.
Defined.

(** X11.  A run stops at the first gathered path that does not split: the
    migrations before it have been rendered and reported as in a run on
    them alone, nothing is run or printed for that path or for any path
    after it, no summary is printed, and the run ends with [TypeError]
    (no component equal to ['migrations']), [IndexError] (nothing after
    it) or [RuntimeError] (an absolute path). *)
Theorem run_stops_at_first_unsplittable_path w self good bad rest :
  changed_migration_files self = good ++ bad :: rest →
  Forall splittable good → ¬ splittable bad →
  ∃ e, check_migrations w self
       = (Raise e, (check_loop w self good (O, O)).2)
       ∧ (e = TypeError ∨ e = IndexError ∨ e = RuntimeError)
       ∧ (e = TypeError ↔ _split_migration_path bad = Return None)
       ∧ commands (check_loop w self good (O, O)).2
         = omap (sqlmigrate_of self) good.
Proof.
  intros Hfiles Hgood Hbad.
  assert (∃ e, check_one w self bad
                 (length (filter (λ m, ¬ erroneous w self m) good),
                  length (filter (erroneous w self) good))
               = (Raise e, [])
               ∧ (e = TypeError ∨ e = IndexError ∨ e = RuntimeError)
               ∧ (e = TypeError ↔ _split_migration_path bad = Return None))
    as (e & Hone & He & Hnone).
  { destruct (_split_migration_path bad) as [[[a n]|]|e] eqn:Hs.
    - destruct Hbad. by exists a, n.
    - exists TypeError. rewrite (check_one_none _ _ _ _ Hs).
      split; [done|]. split; [by left|done].
    - exists e. rewrite (check_one_raise _ _ _ _ _ Hs).
      destruct (split_migration_path_raises _ _ Hs) as [-> | ->];
        (split; [done|]; split; [auto|]; by split). }
  exists e. rewrite check_migrations_unfold, Hfiles, check_loop_app.
  rewrite (check_loop_counts _ _ _ _ Hgood). cbn [fst snd Nat.add].
  rewrite check_loop_cons, Hone. cbn [fst snd]. rewrite List.app_nil_r.
  split_and!; [done..|].
  by destruct (commands_check_loop w self good (O, O) Hgood).
Qed.

Lemma run_stops_at_first_unsplittable_path_demo :
  ∃ e, check_migrations (demo_world demo_diff 0)
         (demo_checker ["app/migrations/0001_initial.py";
                        "docs/migrations.md";
                        "blog/migrations/0002_add.py"])
       = (Raise e,
          (check_loop (demo_world demo_diff 0)
             (demo_checker ["app/migrations/0001_initial.py";
                            "docs/migrations.md";
                            "blog/migrations/0002_add.py"])
             ["app/migrations/0001_initial.py"] (O, O)).2)
       ∧ (e = TypeError ∨ e = IndexError ∨ e = RuntimeError)
       ∧ (e = TypeError
          ↔ _split_migration_path "docs/migrations.md" = Return None)
       ∧ commands
           (check_loop (demo_world demo_diff 0)
              (demo_checker ["app/migrations/0001_initial.py";
                             "docs/migrations.md";
                             "blog/migrations/0002_add.py"])
              ["app/migrations/0001_initial.py"] (O, O)).2
         = omap (sqlmigrate_of
                   (demo_checker ["app/migrations/0001_initial.py";
                                  "docs/migrations.md";
                                  "blog/migrations/0002_add.py"]))
                ["app/migrations/0001_initial.py"].
Proof.
  apply (run_stops_at_first_unsplittable_path (demo_world demo_diff 0)
           (demo_checker ["app/migrations/0001_initial.py";
                          "docs/migrations.md";
                          "blog/migrations/0002_add.py"])
           ["app/migrations/0001_initial.py"] "docs/migrations.md"
           ["blog/migrations/0002_add.py"]).
  - reflexivity.
  - repeat constructor. exists "app", "0001_initial". vm_compute. reflexivity.
  - intros (a & n & Hs). vm_compute in Hs. discriminate.
Defined.

(** ** A diff that names no migration *)

(** X12.  When the folder is valid, the diff command succeeds and none of
    its output lines contains ['migrations'], the main block runs nothing
    beyond the version-control commands, prints only the summary, with the
    counts [0/0] and [0/0], and returns normally. *)
Theorem no_changed_migration_gives_empty_summary w folder_name commit :
  (valid_folder w folder_name).1 = Return true →
  returncode (popen w (git_diff_command folder_name
                         (effective_commit w folder_name commit))) = 0 →
  Forall (λ l, ¬ substring MIGRATION_FOLDER_NAME l)
    (stdout (popen w (git_diff_command folder_name
                        (effective_commit w folder_name commit)))) →
  (main w folder_name commit).1 = Return (Some (O, O))
  ∧ commands (main w folder_name commit).2
    = (if falsy commit then [git_init_cmd folder_name] else [])
      ++ [git_diff_command folder_name
            (effective_commit w folder_name commit)]
  ∧ printed (main w folder_name commit).2
    = [line "*** Summary:";
       line "Valid migrations: 0/0 - erroneous migrations: 0/0"].
Proof.
  intros Hvalid Hrc Hnone. rewrite main_unfold, Hvalid.
  destruct (valid_folder_unfold w folder_name) as [msg Hvf].
  rewrite Hvf in Hvalid |- *. cbn [fst snd] in *. injection Hvalid as Hok.
  rewrite Hok. unfold MigrationChecker_init.
  rewrite gather_migrations_unfold. cbv zeta.
  cbn [location commit_id changed_migration_files].
  rewrite decide_False by (intros Hne; by apply Hne). cbn [fst snd].
  rewrite gather_loop_spec.
  assert (filter (substring MIGRATION_FOLDER_NAME)
            (stdout (popen w (git_diff_command folder_name
                                (effective_commit w folder_name commit))))
          = []) as ->.
  { induction Hnone as [|l ls Hl _ IH]; [done|].
    by rewrite filter_cons, decide_False. }
  cbn [app fmap list_fmap]. unfold check_migrations.
  cbn [changed_migration_files check_loop]. rewrite bind_mret.
  unfold print. rewrite !bind_emit. cbn [fst snd mret M_ret].
  split_and!; [done| |].
  - rewrite commands_app. by destruct (falsy commit).
  - rewrite printed_app. by destruct (falsy commit).
Qed.

Lemma no_changed_migration_gives_empty_summary_demo :
  (main (demo_world [line "README.md"; line "app/models.py"] 0) "proj"
     (Some "abc123")).1 = Return (Some (O, O))
  ∧ commands (main (demo_world [line "README.md"; line "app/models.py"] 0)
                "proj" (Some "abc123")).2
    = [git_diff_command "proj" (Some "abc123")]
  ∧ printed (main (demo_world [line "README.md"; line "app/models.py"] 0)
               "proj" (Some "abc123")).2
    = [line "*** Summary:";
       line "Valid migrations: 0/0 - erroneous migrations: 0/0"].
Proof.
  apply (no_changed_migration_gives_empty_summary
           (demo_world [line "README.md"; line "app/models.py"] 0) "proj"
           (Some "abc123")).
  - vm_compute. reflexivity.
  - reflexivity.
  - change (Forall (λ l, ¬ substring MIGRATION_FOLDER_NAME l)
              [line "README.md"; line "app/models.py"]).
    apply Forall_cons. split; [|apply Forall_cons; split; [|constructor]].
    + intros Hs%contains_spec. vm_compute in Hs. discriminate.
    + intros Hs%contains_spec. vm_compute in Hs. discriminate.
Defined.

(** ** The reference commit *)

(** X13.  A non-empty commit id passed to the checker is used as it is and
    [rev-list] is not run.  Without one (none, or the empty string) the
    [rev-list] command is run first and the first line of its output,
    stripped, becomes the reference commit; if it prints nothing, the diff
    is taken against the text [None] when no commit was passed, and against
    the empty text when the empty string was. *)
Theorem reference_commit_selection w django_folder :
  (∀ c, c ≠ "" →
     commands (MigrationChecker_init w django_folder (Some c)).2
     = [git_diff_command django_folder (Some c)])
  ∧ (∀ commit first_line lines,
       commit = None ∨ commit = Some "" →
       stdout (popen w (git_init_cmd django_folder)) = first_line :: lines →
       commands (MigrationChecker_init w django_folder commit).2
       = [git_init_cmd django_folder;
          "cd " +:+ django_folder +:+ " && git diff --name-only "
          +:+ Str.strip first_line])
  ∧ (stdout (popen w (git_init_cmd django_folder)) = [] →
     commands (MigrationChecker_init w django_folder None).2
     = [git_init_cmd django_folder;
        "cd " +:+ django_folder +:+ " && git diff --name-only None"]
     ∧ commands (MigrationChecker_init w django_folder (Some "")).2
       = [git_init_cmd django_folder;
          "cd " +:+ django_folder +:+ " && git diff --name-only "]).
Proof.
  assert (∀ commit,
    commands (MigrationChecker_init w django_folder commit).2
    = (if falsy commit then [git_init_cmd django_folder] else [])
      ++ [git_diff_command django_folder
            (effective_commit w django_folder commit)]) as Hcmds.
  { intros commit. unfold MigrationChecker_init.
    rewrite gather_migrations_unfold. cbv zeta. cbn [location commit_id].
    case_decide; cbn [snd]; by destruct (falsy commit). }
  split_and!.
  - intros c Hc. rewrite Hcmds. unfold effective_commit.
    by destruct c.
  - intros commit first_line lines Hcommit Hout. rewrite Hcmds.
    unfold effective_commit. rewrite Hout.
    by destruct Hcommit as [-> | ->].
  - intros Hout. rewrite !Hcmds. unfold effective_commit. by rewrite Hout.
Qed.

(** ** The rules have no anchors and are case-sensitive *)

(** A character that is an upper-case letter. *)
Definition is_upper (c : ascii) : bool :=
  (65 <=? Z.of_nat (nat_of_ascii c)) && (Z.of_nat (nat_of_ascii c) <=? 90).

(** No character of the string is an upper-case letter. *)
Fixpoint no_upper (s : string) : Prop :=
  match s with
  | "" => True
  | String c s' => is_upper c = false ∧ no_upper s'
  end.

Lemma no_upper_mid a c t : no_upper (a +:+ String c t) → is_upper c = false.
Proof.
  induction a as [|d a IH]; [by intros [? _]|].
  rewrite sapp_cons. intros [_ ?]. auto.
Qed.

(** X14.  A flagged statement stays flagged when text is added before or
    after it (the patterns are searched, not anchored), and a statement
    without any upper-case letter is never flagged (the patterns are
    matched case-sensitively). *)
Theorem rules_unanchored_and_case_sensitive :
  (∀ a sql b,
     (_test_sql_statement_for_backward_incompatibility sql).1 = false →
     (_test_sql_statement_for_backward_incompatibility
        (a +:+ sql +:+ b)).1 = false)
  ∧ (∀ sql, no_upper sql →
       _test_sql_statement_for_backward_incompatibility sql = (true, None)).
Proof.
  split.
  - intros a sql b. rewrite !test_invalid_iff.
    unfold unsafe, rule_not_null, rule_drop_column, rule_add_column_default.
    intros [?|[?|?]]; [left|right;left|right;right]; by apply occurs_app.
  - intros sql Hlow.
    destruct (test_result_shape sql) as [(msg & _ & _ & Hu)|[? _]]; [|done].
    exfalso. destruct Hu as [Hu|[Hu|Hu]].
    + apply rule_not_null_spec in Hu as (a & b & ->).
      by apply (no_upper_mid a "N") in Hlow.
    + apply rule_drop_column_spec in Hu as (a & b & ->).
      by apply (no_upper_mid a "D") in Hlow.
    + apply rule_add_column_default_spec in Hu as (a & mid & b & -> & _).
      by apply (no_upper_mid a "A") in Hlow.
Qed.
